(** * Video fact-checker: job pipeline, chunked transcription, scoring

    A shallow embedding of the backend of the video fact-checker:
    - [factCheckService.ts]   ([factCheckTranscription], the scoring engine),
    - [transcriptionService.ts] ([transcribeAudio], the chunk splitter, the
      retry loops),
    - [downloadService.ts]    ([downloadVideo]),
    - [helpers.ts]            ([isValidPlatformUrl]),
    - [videoController.ts]    (the job table and the request handlers).

    Conventions of the embedding.
    - An [async] function is a computation in the monad [M]: explicit state
      passing over a [World] (the job table, counters of the external calls
      made so far, and a chronological trace of the observable effects),
      returning [Ok v] or [Throw e].
    - The outside world (the Gemini client, ffprobe/ffmpeg, yt-dlp, the file
      system, the URL parser, uuid) is an [Env] of oracles; every theorem
      quantifies over it.
    - Values produced by [JSON.parse] are untyped at run time, so they are
      kept as [json] trees and read with the JavaScript rules for property
      access, truthiness and [===].
    - JavaScript numbers are exact rationals [Q] (durations, scores) or
      integers [Z] (progress, counts, sizes). The divisions the code makes
      ([weightedSum / totalClaims], [i / chunks.length * 40]) are taken
      exactly; for the score this agrees with the floating-point result,
      since a quotient of integers of this size that is not a half-integer
      is further from one than the rounding error.
    - The message argument of [onProgress], [statusMessage] and the dates
      are display data without influence on control flow; they are left out. *)

From Stdlib Require Import ZArith QArith Qround Lia Lqa String Ascii List.
From stdpp Require Import base option list gmap strings pretty.

Local Open Scope string_scope.
Local Open Scope list_scope.
Local Open Scope Z_scope.

(** ** JSON values and the JavaScript operations used on them *)

#[warnings="-register-all"]
Inductive json : Type :=
| JNull
| JBool (b : bool)
| JNum (q : Q)
| JStr (s : string)
| JArr (items : list json)
| JObj (fields : list (string * json)).

(** A JavaScript value reachable from parsed JSON: [None] is [undefined]. *)
Definition jsval : Type := option json.

(** What is thrown: the message of the [Error] object. *)
Definition Error : Type := string.

Inductive Result (A : Type) : Type :=
| Ok (a : A)
| Throw (e : Error).
Arguments Ok {A} a.
Arguments Throw {A} e.

Definition TypeError (what : string) : Error := "TypeError: " +:+ what.

(** Own property of an object literal; [JSON.parse] keeps the last of
    duplicate keys. *)
Fixpoint own_property (k : string) (fields : list (string * json)) : jsval :=
  match fields with
  | [] => None
  | (k', v) :: rest =>
      match own_property k rest with
      | Some later => Some later
      | None => if String.eqb k' k then Some v else None
      end
  end.

(** [v.k] for the property names the services read ([length], [text],
    [timestamp], [claimIndex], [status], [score], [explanation],
    [wrongPart], [correction], [sources]); none of them is inherited from a
    prototype, except [length] on arrays and strings. *)
Definition get (v : jsval) (k : string) : Result jsval :=
  match v with
  | None => Throw (TypeError ("Cannot read properties of undefined (reading " +:+ k +:+ ")"))
  | Some JNull => Throw (TypeError ("Cannot read properties of null (reading " +:+ k +:+ ")"))
  | Some (JObj fields) => Ok (own_property k fields)
  | Some (JArr items) =>
      if String.eqb k "length" then Ok (Some (JNum (inject_Z (Z.of_nat (List.length items)))))
      else Ok None
  | Some (JStr s) =>
      if String.eqb k "length" then Ok (Some (JNum (inject_Z (Z.of_nat (String.length s)))))
      else Ok None
  | Some (JBool _) | Some (JNum _) => Ok None
  end.

(** [v === n] for a number [n]. *)
Definition strict_eq_num (v : jsval) (n : Q) : bool :=
  match v with
  | Some (JNum q) => Qeq_bool q n
  | _ => false
  end.

(** [v === s] for a string literal [s]. *)
Definition strict_eq_str (v : jsval) (s : string) : bool :=
  match v with
  | Some (JStr s') => String.eqb s' s
  | _ => false
  end.

(** JavaScript truthiness (there is no NaN among parsed JSON numbers). *)
Definition truthy (v : jsval) : bool :=
  match v with
  | None | Some JNull | Some (JBool false) => false
  | Some (JNum q) => negb (Qeq_bool q 0)
  | Some (JStr s) => negb (String.eqb s EmptyString)
  | Some (JBool true) | Some (JArr _) | Some (JObj _) => true
  end.

(** [a || b] *)
Definition js_or (a b : jsval) : jsval := if truthy a then a else b.

(** [Math.round]: nearest integer, ties towards plus infinity. *)
Definition Math_round (q : Q) : Z := Qfloor (q + (1 # 2)).

(** ** Data model ([types/index.ts]) *)

Inductive VideoStatus : Type :=
| pending | downloading | transcribing | analyzing | completed | error.

Global Instance VideoStatus_eq_dec : EqDecision VideoStatus.
Proof. solve_decision. Defined.

(** [Claim]: the fields are what the verifier sent, unchecked (the cast
    [as ClaimStatus] is erased at run time). *)
Module Claim.
Record t : Type := mk {
  id : string;
  text : jsval;
  timestamp : jsval;
  status : jsval;
  score : jsval;
  explanation : jsval;
  wrongPart : jsval;
  correction : jsval;
  sources : jsval;
}.
End Claim.

Module Summary.
Record t : Type := mk {
  totalClaims : Z;
  trueClaims : Z;
  falseClaims : Z;
  partiallyTrueClaims : Z;
  unverifiableClaims : Z;
}.
End Summary.

Module FactCheckResult.
Record t : Type := mk {
  claims : list Claim.t;
  overallScore : Z;
  summary : Summary.t;
}.
End FactCheckResult.

Module VideoData.
Record t : Type := mk {
  id : string;
  url : string;
  platform : string;
  title : option string;
  duration : option Q;
  language : string;
  status : VideoStatus;
  progress : Z;
  audioPath : option string;
  transcription : option string;
  claims : option (list Claim.t);
  overallScore : option Z;
  error : option string;
}.
End VideoData.

(** ** The world: job table, external services, effects *)

(** State of an uploaded file at the inference service. *)
Inductive FileState : Type :=
| STATE_UNSPECIFIED | PROCESSING | ACTIVE | FAILED.

Global Instance FileState_eq_dec : EqDecision FileState.
Proof. solve_decision. Defined.

Module File.
Record t : Type := mk {
  name : string;
  uri : string;
  mimeType : string;
  state : FileState;
}.
End File.

Module VideoInfo.
Record t : Type := mk {
  title : string;
  duration : Q;
}.
End VideoInfo.

(** Observable effects, in the order in which they happen. *)
Inductive Event : Type :=
| EvProgress (p : Z)
| EvJobWrite (id : string) (status : VideoStatus) (progress : Z)
| EvSleep (ms : Z)
| EvGenerateContent
| EvUploadFile (path : string)
| EvGetFile (name : string)
| EvDeleteFile (name : string)
| EvFfmpeg (chunkIndex : nat) (startTime duration : Q)
| EvUnlink (path : string).

Global Instance Event_eq_dec : EqDecision Event.
Proof.
  assert (EqDecision Q) by (intros [a b] [c d]; unfold Decision; decide equality;
    [apply Pos.eq_dec | apply Z.eq_dec]).
  solve_decision.
Defined.

Record World : Type := mkWorld {
  videoJobs : gmap string VideoData.t;
  n_generateContent : nat;
  n_uploadFile : nat;
  n_getFile : nat;
  n_uuid : nat;
  trace : list Event;
}.

(** The external collaborators. An outcome indexed by [nat] is the outcome
    of the n-th call of that kind since the start of the world. *)
Record Env : Type := mkEnv {
  (** [config.geminiApiKey] *)
  geminiApiKey : string;
  (** [model.generateContent(...)] followed by [result.response.text()] *)
  generateContent_out : nat -> Result string;
  (** the [try] blocks that clean a model answer (trim, strip a code fence)
      and hand it to [JSON.parse]; [None] when [JSON.parse] throws *)
  parseModelJson : string -> option json;
  (** [uuidv4()] *)
  uuidv4 : nat -> string;
  (** [fileManager.uploadFile] *)
  uploadFile_out : nat -> Result File.t;
  (** [fileManager.getFile] *)
  getFile_out : nat -> Result File.t;
  (** ffprobe on a path: the printed duration, [None] when [execSync] throws *)
  ffprobe : string -> option Q;
  (** ffmpeg on chunk n: [true] when it ran and the chunk file exists *)
  ffmpeg_out : nat -> bool;
  (** [fs.statSync(path).size], [None] when it throws *)
  statSize : string -> option Z;
  (** [String.prototype.trim] *)
  trim : string -> string;
  (** [path.join(dir, baseName + "_chunk" + n + ext)] for an audio path *)
  chunkPathOf : string -> nat -> string;
  (** [new URL(url).hostname], [None] when the constructor throws *)
  URL_hostname : string -> option string;
  (** yt-dlp: the metadata call, whether the low-bitrate call left
      [audio.mp3], and the fallback call with the audio file it left *)
  ytdlp_info : Result VideoInfo.t;
  ytdlp_mp3 : bool;
  ytdlp_fallback : Result (option string);
}.

Definition M (A : Type) : Type := World -> Result A * World.

Global Instance M_ret : MRet M := fun A a w => (Ok a, w).
Global Instance M_bind : MBind M := fun A B k m w =>
  match m w with
  | (Ok a, w') => k a w'
  | (Throw e, w') => (Throw e, w')
  end.

Definition throw {A} (e : Error) : M A := fun w => (Throw e, w).

(** [try { m } catch (e) { h e }] *)
Definition try_catch {A} (m : M A) (h : Error -> M A) : M A := fun w =>
  match m w with
  | (Ok a, w') => (Ok a, w')
  | (Throw e, w') => h e w'
  end.

Definition liftR {A} (r : Result A) : M A := fun w => (r, w).

(** Runs [m] inside a [try] and hands its outcome to the code after it. *)
Definition attempt {A} (m : M A) : M (Result A) := fun w =>
  let (r, w') := m w in (Ok r, w').

Definition emit (e : Event) : M unit := fun w =>
  (Ok tt, mkWorld (videoJobs w) (n_generateContent w) (n_uploadFile w)
                  (n_getFile w) (n_uuid w) (trace w ++ [e])).

Definition getWorld : M World := fun w => (Ok w, w).

Definition setJobs (jobs : gmap string VideoData.t) : M unit := fun w =>
  (Ok tt, mkWorld jobs (n_generateContent w) (n_uploadFile w)
                  (n_getFile w) (n_uuid w) (trace w)).

(** [onProgress?.(p, message)] *)
Definition callProgress (onProgress : option (Z -> M unit)) (p : Z) : M unit :=
  match onProgress with
  | Some f => f p
  | None => mret tt
  end.

(** [await new Promise(resolve => setTimeout(resolve, ms))] *)
Definition sleep (ms : Z) : M unit := emit (EvSleep ms).

Section Services.
Context (env : Env).

Definition generateContent : M string := fun w =>
  (generateContent_out env (n_generateContent w),
   mkWorld (videoJobs w) (S (n_generateContent w)) (n_uploadFile w)
           (n_getFile w) (n_uuid w) (trace w ++ [EvGenerateContent])).

Definition uploadFile (path : string) : M File.t := fun w =>
  (uploadFile_out env (n_uploadFile w),
   mkWorld (videoJobs w) (n_generateContent w) (S (n_uploadFile w))
           (n_getFile w) (n_uuid w) (trace w ++ [EvUploadFile path])).

Definition getFile (name : string) : M File.t := fun w =>
  (getFile_out env (n_getFile w),
   mkWorld (videoJobs w) (n_generateContent w) (n_uploadFile w)
           (S (n_getFile w)) (n_uuid w) (trace w ++ [EvGetFile name])).

Definition generateId : M string := fun w =>
  (Ok (uuidv4 env (n_uuid w)),
   mkWorld (videoJobs w) (n_generateContent w) (n_uploadFile w)
           (n_getFile w) (S (n_uuid w)) (trace w)).

End Services.

(** ** Claim extraction, verification and scoring ([factCheckService.ts]) *)

(** [arr.map((x, index) => f x index)] on the items of an array. *)
Fixpoint mapM_index {A B} (f : A -> nat -> M B) (items : list A) (index : nat)
  : M (list B) :=
  match items with
  | [] => mret []
  | x :: rest =>
      y ← f x index;
      ys ← mapM_index f rest (S index);
      mret (y :: ys)
  end.

(** [v.map(f)]: only arrays have a [map] method. *)
Definition js_map {B} (v : json) (f : json -> nat -> M B) : M (list B) :=
  match v with
  | JArr items => mapM_index f items 0%nat
  | JNull => throw (TypeError "Cannot read properties of null (reading map)")
  | _ => throw (TypeError "map is not a function")
  end.

(** [items.find(f => f.claimIndex === index)]: left to right, stopping at
    the first match; reading [claimIndex] of [null] throws. *)
Fixpoint find_claimIndex (items : list json) (index : nat) : Result jsval :=
  match items with
  | [] => Ok None
  | f :: rest =>
      match get (Some f) "claimIndex" with
      | Throw e => Throw e
      | Ok v =>
          if strict_eq_num v (inject_Z (Z.of_nat index)) then Ok (Some f)
          else find_claimIndex rest index
      end
  end.

(** [v.find(f => f.claimIndex === index)] *)
Definition js_find_claimIndex (v : json) (index : nat) : Result jsval :=
  match v with
  | JArr items => find_claimIndex items index
  | JNull => Throw (TypeError "Cannot read properties of null (reading find)")
  | _ => Throw (TypeError "find is not a function")
  end.

(** The claim substituted when the extractor's answer does not parse. *)
Definition placeholderClaims : json :=
  JArr [JObj [("text", JStr "Unable to extract specific claims")]].

(** The verdict substituted for claim [index] when the verifier's answer
    does not parse. *)
Definition unparsedVerdict (index : nat) : json :=
  JObj [("claimIndex", JNum (inject_Z (Z.of_nat index)));
        ("status", JStr "unverifiable");
        ("score", JNum 50);
        ("explanation", JStr "Unable to verify this claim");
        ("sources", JArr [])].

(** The verdict used for an index that no element of the verdict array
    claims. *)
Definition defaultVerdict : json :=
  JObj [("status", JStr "unverifiable");
        ("score", JNum 50);
        ("explanation", JStr "Unable to verify");
        ("sources", JArr [])].

Definition count_status (s : string) (claims : list Claim.t) : Z :=
  Z.of_nat (List.length (List.filter (fun c => strict_eq_str (Claim.status c) s) claims)).

Definition summarize (claims : list Claim.t) : Summary.t :=
  Summary.mk (Z.of_nat (List.length claims))
             (count_status "true" claims)
             (count_status "false" claims)
             (count_status "partially_true" claims)
             (count_status "unverifiable" claims).

Definition weightedSum (s : Summary.t) : Z :=
  (Summary.trueClaims s * 100) +
  (Summary.partiallyTrueClaims s * 50) +
  (Summary.unverifiableClaims s * 50) +
  (Summary.falseClaims s * 0).

Definition computeOverallScore (s : Summary.t) : Z :=
  if Z.eqb (Summary.totalClaims s) 0 then 100
  else Math_round (inject_Z (weightedSum s) / inject_Z (Summary.totalClaims s)).

Definition emptyResult : FactCheckResult.t :=
  FactCheckResult.mk [] 100 (Summary.mk 0 0 0 0 0).

(** [factCheckData.find(f => f.claimIndex === index) || { ...default }] *)
Definition chosenVerdict (factCheckData : json) (index : nat) : Result jsval :=
  match js_find_claimIndex factCheckData index with
  | Ok found => Ok (js_or found (Some defaultVerdict))
  | Throw e => Throw e
  end.

(** [extractedClaims.map((_, index) => ({ claimIndex: index, ... }))], the
    body of the [catch] of the second parse. *)
Definition fallbackVerdicts (extractedClaims : json) : Result json :=
  match extractedClaims with
  | JArr items => Ok (JArr (imap (fun index _ => unparsedVerdict index) items))
  | JNull => Throw (TypeError "Cannot read properties of null (reading map)")
  | _ => Throw (TypeError "map is not a function")
  end.

Section FactCheck.
Context (env : Env).

(** The first [try]/[catch]: the parsed answer of the extractor, or the
    placeholder when it does not parse. *)
Definition extractedClaimsOf (extractionText : string) : json :=
  match parseModelJson env extractionText with
  | Some parsed => parsed
  | None => placeholderClaims
  end.

(** The second [try]/[catch]: the parsed answer of the verifier, or one
    fallback verdict per extracted claim when it does not parse. *)
Definition factCheckDataOf (extractedClaims : json) (factCheckText : string)
  : Result json :=
  match parseModelJson env factCheckText with
  | Some parsed => Ok parsed
  | None => fallbackVerdicts extractedClaims
  end.

(** The callback of [extractedClaims.map((claim, index) => ...)] that
    assembles one claim. *)
Definition buildClaim (factCheckData : json) (claim : json) (index : nat)
  : M Claim.t :=
  checkResult ← liftR (chosenVerdict factCheckData index);
  id ← generateId env;
  text ← liftR (get (Some claim) "text");
  timestamp ← liftR (get (Some claim) "timestamp");
  status ← liftR (get checkResult "status");
  score ← liftR (get checkResult "score");
  explanation ← liftR (get checkResult "explanation");
  wrongPart ← liftR (get checkResult "wrongPart");
  correction ← liftR (get checkResult "correction");
  sources ← liftR (get checkResult "sources");
  mret (Claim.mk id text timestamp status score explanation wrongPart correction
         (if strict_eq_str status "true" then Some (JArr [])
          else js_or sources (Some (JArr [])))).

Definition factCheckTranscription (transcription language : string)
           (onProgress : option (Z -> M unit)) : M FactCheckResult.t :=
  if String.eqb (geminiApiKey env) EmptyString then
    throw "Gemini API key not configured"
  else
    callProgress onProgress 75;;
    try_catch
      (extractionText ← generateContent env;
       let extractedClaims := extractedClaimsOf extractionText in
       len ← liftR (get (Some extractedClaims) "length");
       if strict_eq_num len 0 then mret emptyResult
       else
         callProgress onProgress 80;;
         factCheckText ← generateContent env;
         factCheckData ← liftR (factCheckDataOf extractedClaims factCheckText);
         callProgress onProgress 90;;
         claims ← js_map extractedClaims (buildClaim factCheckData);
         let summary := summarize claims in
         let overallScore := computeOverallScore summary in
         callProgress onProgress 100;;
         mret (FactCheckResult.mk claims overallScore summary))
      (fun errorMessage => throw ("Fact-checking failed: " +:+ errorMessage)).

End FactCheck.

(** ** Transcription ([transcriptionService.ts]) *)

Module ChunkInfo.
Record t : Type := mk {
  path : string;
  startTime : Q;
  duration : Q;
}.
End ChunkInfo.

Module TranscriptionResult.
Record t : Type := mk {
  transcription : string;
  language : string;
}.
End TranscriptionResult.

Definition FILE_SIZE_THRESHOLD : Z := 4 * 1024 * 1024.
Definition CHUNK_DURATION_SECONDS : Q := 5 * 60.
Definition CHUNKING_THRESHOLD_SECONDS : Q := 10 * 60.

(** [a < b] on numbers. *)
Definition Qlt_bool (a b : Q) : bool := negb (Qle_bool b a).

Definition Math_min (a b : Q) : Q := if Qle_bool a b then a else b.

(** [config.supportedLanguages]: code and English name. *)
Definition supportedLanguages : list (string * string) :=
  [("en", "English"); ("ar", "Arabic"); ("fr", "French"); ("es", "Spanish");
   ("de", "German"); ("it", "Italian"); ("pt", "Portuguese"); ("ru", "Russian");
   ("zh", "Chinese"); ("ja", "Japanese"); ("ko", "Korean"); ("hi", "Hindi");
   ("tr", "Turkish")].

(** [config.supportedLanguages.find(l => l.code === language)] *)
Definition findLanguage (language : string) : option (string * string) :=
  List.find (fun l => String.eqb (fst l) language) supportedLanguages.

Definition languageNameOf (language : string) : string :=
  match findLanguage language with
  | Some l => snd l
  | None => "English"
  end.

(** [s.padStart(2, '0')] for the decimal rendering of an integer. *)
Definition padStart2 (s : string) : string :=
  match s with
  | EmptyString => "00"
  | String c EmptyString => String "0"%char s
  | _ => s
  end.

(** [formatTimestamp]: seconds to MM:SS (called on start offsets, which
    are never negative). *)
Definition formatTimestamp (seconds : Q) : string :=
  let mins := Qfloor (seconds / 60) in
  let secs := Qfloor (seconds - inject_Z (60 * mins)) in
  padStart2 (pretty mins) +:+ ":" +:+ padStart2 (pretty secs).

Definition newline : string := String (ascii_of_nat 10) EmptyString.

(** The header put in front of a chunk's transcript. *)
Definition chunkHeader (startTime : Q) : string :=
  newline +:+ "[" +:+ formatTimestamp startTime +:+ "]" +:+ newline.

Section Transcription.
Context (env : Env).

(** [getAudioDuration]: 0 when ffprobe cannot be run. *)
Definition getAudioDuration (audioPath : string) : Q :=
  match ffprobe env audioPath with
  | Some duration => duration
  | None => 0%Q
  end.

(** The [while (startTime < totalDuration)] loop of
    [splitAudioIntoChunks]. [fuel] bounds the number of iterations; the
    source loops forever when [chunkDuration <= 0 < totalDuration]. *)
Fixpoint splitLoop (fuel : nat) (audioPath : string) (totalDuration chunkDuration : Q)
         (startTime : Q) (chunkIndex : nat) (chunks : list ChunkInfo.t)
  : M (list ChunkInfo.t) :=
  if Qlt_bool startTime totalDuration then
    match fuel with
    | O => throw "splitAudioIntoChunks: the loop does not terminate"
    | S fuel' =>
        let chunkPath := chunkPathOf env audioPath chunkIndex in
        let duration := Math_min chunkDuration (totalDuration - startTime) in
        emit (EvFfmpeg chunkIndex startTime duration);;
        let chunks' :=
          if ffmpeg_out env chunkIndex
          then chunks ++ [ChunkInfo.mk chunkPath startTime duration]
          else chunks in
        splitLoop fuel' audioPath totalDuration chunkDuration
                  (startTime + chunkDuration) (S chunkIndex) chunks'
    end
  else mret chunks.

(** Iterations the loop needs when [chunkDuration] is positive. *)
Definition splitFuel (totalDuration chunkDuration : Q) : nat :=
  Z.to_nat (Qceiling (totalDuration / chunkDuration)).

Definition splitAudioIntoChunks (audioPath : string) (chunkDuration : Q)
  : M (list ChunkInfo.t) :=
  let totalDuration := getAudioDuration audioPath in
  if Qle_bool totalDuration 0 then throw "Could not determine audio duration"
  else splitLoop (splitFuel totalDuration chunkDuration) audioPath
                 totalDuration chunkDuration 0%Q 0%nat [].

(** [uploadWithRetry]: the [for (attempt = 1; attempt <= maxRetries)]
    loop with [todo] iterations left, then the final [throw]. *)
Fixpoint uploadLoop (todo : nat) (audioPath : string) (maxRetries : nat)
         (onProgress : option (Z -> M unit)) (attempt_no : nat)
         (lastError : option Error) : M File.t :=
  match todo with
  | O =>
      throw (match lastError with
             | Some e => e
             | None => "Upload failed after all retries"
             end)
  | S todo' =>
      r ← attempt (callProgress onProgress (50 + Z.of_nat attempt_no);;
                   uploadFile env audioPath);
      match r with
      | Ok result => mret result
      | Throw err =>
          (if Nat.ltb attempt_no maxRetries
           then sleep (2 ^ Z.of_nat attempt_no * 1000)
           else mret tt);;
          uploadLoop todo' audioPath maxRetries onProgress (S attempt_no) (Some err)
      end
  end.

Definition uploadWithRetry (audioPath : string) (maxRetries : nat)
           (onProgress : option (Z -> M unit)) : M File.t :=
  uploadLoop maxRetries audioPath maxRetries onProgress 1%nat None.

(** [while (file.state === 'PROCESSING' && waitCount < maxWait)], with
    [todo = maxWait - waitCount]; [report] is the progress call made by
    the File API path only. *)
Fixpoint waitWhileProcessing (todo : nat) (waitCount : nat) (file : File.t)
         (report : option (Z -> M unit)) : M File.t :=
  match todo with
  | O => mret file
  | S todo' =>
      if decide (File.state file = PROCESSING) then
        sleep 2000;;
        r ← attempt (getFile env (File.name file));
        let file' := match r with Ok f => f | Throw _ => file end in
        let waitCount' := S waitCount in
        callProgress report (55 + Z.min (Z.of_nat waitCount') 10);;
        waitWhileProcessing todo' waitCount' file' report
      else mret file
  end.

(** [try { await fileManager.deleteFile(name) } catch {}] *)
Definition deleteFileQuietly (name : string) : M unit :=
  emit (EvDeleteFile name).

(** [text && text.trim().length > 0] *)
Definition hasText (text : string) : bool :=
  negb (String.eqb text EmptyString) && negb (String.eqb (trim env text) EmptyString).

(** The body of the [try] of one chunk: [Some acc] is the list of
    transcripts at the end of the body, [None] the [continue] taken for
    a file in state FAILED (which also skips the cleanup after the
    [try]). *)
Definition transcribeChunk (chunk : ChunkInfo.t) (transcriptions : list string)
  : M (option (list string)) :=
  uploaded ← uploadWithRetry (ChunkInfo.path chunk) 3 None;
  file ← waitWhileProcessing 30 0 uploaded None;
  if decide (File.state file = FAILED) then mret None
  else
    transcription ← generateContent env;
    let transcriptions' :=
      if hasText transcription
      then transcriptions ++ [chunkHeader (ChunkInfo.startTime chunk) +:+ trim env transcription]
      else transcriptions in
    deleteFileQuietly (File.name file);;
    mret (Some transcriptions').

(** The [for (let i = 0; i < chunks.length; i++)] loop over the chunks
    still to do. *)
Fixpoint chunkLoop (total : nat) (todo : list ChunkInfo.t) (i : nat)
         (onProgress : option (Z -> M unit)) (transcriptions : list string)
  : M (list string) :=
  match todo with
  | [] => mret transcriptions
  | chunk :: rest =>
      let progressBase :=
        50 + Qfloor (inject_Z (Z.of_nat i) / inject_Z (Z.of_nat total) * 40) in
      callProgress onProgress progressBase;;
      r ← attempt (transcribeChunk chunk transcriptions);
      match r with
      | Ok None => chunkLoop total rest (S i) onProgress transcriptions
      | Ok (Some transcriptions') =>
          emit (EvUnlink (ChunkInfo.path chunk));;
          chunkLoop total rest (S i) onProgress transcriptions'
      | Throw _ =>
          emit (EvUnlink (ChunkInfo.path chunk));;
          chunkLoop total rest (S i) onProgress transcriptions
      end
  end.

Definition mergeTranscriptions (transcriptions : list string) : string :=
  String.concat (newline +:+ newline) transcriptions.

Definition transcribeWithChunking (audioPath languageName : string)
           (onProgress : option (Z -> M unit)) : M TranscriptionResult.t :=
  callProgress onProgress 50;;
  chunks ← splitAudioIntoChunks audioPath CHUNK_DURATION_SECONDS;
  if Nat.eqb (List.length chunks) 0 then throw "Failed to split audio into chunks"
  else
    transcriptions ← chunkLoop (List.length chunks) chunks 0 onProgress [];
    if Nat.eqb (List.length transcriptions) 0 then throw "Failed to transcribe any chunks"
    else
      callProgress onProgress 95;;
      let fullTranscription := mergeTranscriptions transcriptions in
      callProgress onProgress 100;;
      mret (TranscriptionResult.mk fullTranscription languageName).

(** The [for (let attempt = 1; attempt <= 3; attempt++)] loops around
    [model.generateContent] of the File API path and of the inline path.
    They differ in the progress reported per attempt, in the pause after
    a thrown attempt, in the cleanup on success and in the message of
    the fallback error; [todo] is the number of attempts left. *)
Fixpoint generateLoop (todo : nat) (attempt_no : nat)
         (attemptProgress : nat -> Z) (pause : Z) (cleanup : M unit)
         (fallback : Error) (languageName : string)
         (onProgress : option (Z -> M unit)) (lastError : option Error)
  : M TranscriptionResult.t :=
  match todo with
  | O => throw (match lastError with Some e => e | None => fallback end)
  | S todo' =>
      r ← attempt (callProgress onProgress (attemptProgress attempt_no);;
                   transcription ← generateContent env;
                   if hasText transcription then
                     cleanup;;
                     callProgress onProgress 70;;
                     mret (Some (TranscriptionResult.mk (trim env transcription) languageName))
                   else mret None);
      match r with
      | Ok (Some result) => mret result
      | Ok None =>
          generateLoop todo' (S attempt_no) attemptProgress pause cleanup fallback
                       languageName onProgress lastError
      | Throw err =>
          (if Nat.ltb attempt_no 3 then sleep pause else mret tt);;
          generateLoop todo' (S attempt_no) attemptProgress pause cleanup fallback
                       languageName onProgress (Some err)
      end
  end.

Definition transcribeWithFileAPI (audioPath languageName : string)
           (onProgress : option (Z -> M unit)) : M TranscriptionResult.t :=
  callProgress onProgress 50;;
  uploaded ← uploadWithRetry audioPath 3 onProgress;
  callProgress onProgress 55;;
  file ← waitWhileProcessing 60 0 uploaded onProgress;
  if decide (File.state file = FAILED) then
    throw "Gemini file processing failed. Try a shorter video."
  else
    callProgress onProgress 65;;
    generateLoop 3 1 (fun attempt_no => 65 + Z.of_nat attempt_no * 2) 3000
                 (deleteFileQuietly (File.name file))
                 "Transcription failed with File API" languageName onProgress None.

Definition transcribeWithInlineData (audioPath languageName : string)
           (onProgress : option (Z -> M unit)) : M TranscriptionResult.t :=
  callProgress onProgress 50;;
  callProgress onProgress 55;;
  generateLoop 3 1 (fun attempt_no => 55 + Z.of_nat attempt_no * 5) 2000
               (mret tt)
               "Transcription failed with inline data" languageName onProgress None.

Definition transcribeAudio (audioPath language : string)
           (onProgress : option (Z -> M unit)) : M TranscriptionResult.t :=
  if String.eqb (geminiApiKey env) EmptyString then
    throw "Gemini API key not configured. Please set GEMINI_API_KEY in .env"
  else
    callProgress onProgress 45;;
    match statSize env audioPath with
    | None => throw "ENOENT: no such file or directory"
    | Some size =>
        let languageName := languageNameOf language in
        let audioDuration := getAudioDuration audioPath in
        if Qlt_bool CHUNKING_THRESHOLD_SECONDS audioDuration then
          callProgress onProgress 48;;
          transcribeWithChunking audioPath languageName onProgress
        else
          callProgress onProgress 48;;
          if Z.ltb FILE_SIZE_THRESHOLD size
          then transcribeWithFileAPI audioPath languageName onProgress
          else transcribeWithInlineData audioPath languageName onProgress
    end.

End Transcription.

(** ** Download ([downloadService.ts]) *)

Module DownloadResult.
Record t : Type := mk {
  audioPath : string;
  title : string;
  duration : Q;
}.
End DownloadResult.

Section Download.
Context (env : Env).

Definition videoDirOf (videoId : string) : string := "temp/" +:+ videoId.

Definition downloadVideo (url videoId : string)
           (onProgress : option (Z -> M unit)) : M DownloadResult.t :=
  let videoDir := videoDirOf videoId in
  callProgress onProgress 10;;
  try_catch
    (callProgress onProgress 15;;
     videoInfo ← liftR (ytdlp_info env);
     callProgress onProgress 25;;
     let mp3Path := if ytdlp_mp3 env then Some (videoDir +:+ "/audio.mp3") else None in
     audioPath ←
       match mp3Path with
       | Some p => mret (Some p)
       | None =>
           audioFile ← liftR (ytdlp_fallback env);
           mret (option_map (fun f => videoDir +:+ "/" +:+ f) audioFile)
       end;
     callProgress onProgress 40;;
     match audioPath with
     | None => throw "Audio file not found after download"
     | Some p =>
         mret (DownloadResult.mk p
                 (if String.eqb (VideoInfo.title videoInfo) EmptyString
                  then "Unknown Title" else VideoInfo.title videoInfo)
                 (VideoInfo.duration videoInfo))
     end)
    (fun errorMessage => throw ("Failed to download video: " +:+ errorMessage)).

End Download.

(** ** URL validation ([helpers.ts]) *)

(** [config.supportedPlatforms] *)
Definition supportedPlatforms : list string :=
  ["youtube.com"; "youtu.be"; "facebook.com"; "fb.watch";
   "instagram.com"; "twitter.com"; "x.com"; "tiktok.com"].

(** [s.includes(sub)] *)
Definition includes (s sub : string) : bool :=
  match String.index 0 sub s with
  | Some _ => true
  | None => false
  end.

(** [s.replace(pat, rep)] with a string pattern: the first occurrence only. *)
Definition replaceFirst (pat rep s : string) : string :=
  match String.index 0 pat s with
  | Some n =>
      String.substring 0 n s +:+ rep +:+
      String.substring (n + String.length pat)
                       (String.length s - (n + String.length pat)) s
  | None => s
  end.

Definition lowerAscii (c : ascii) : ascii :=
  let n := nat_of_ascii c in
  if Nat.leb 65 n && Nat.leb n 90 then ascii_of_nat (n + 32) else c.

(** [s.toLowerCase()] on host names, which are ASCII. *)
Fixpoint toLowerCase (s : string) : string :=
  match s with
  | EmptyString => EmptyString
  | String c rest => String (lowerAscii c) (toLowerCase rest)
  end.

(** The host as the helpers compare it. *)
Definition normalizeHost (host : string) : string :=
  toLowerCase (replaceFirst "www." EmptyString host).

Section Helpers.
Context (env : Env).

Definition isValidPlatformUrl (url : string) : bool :=
  match URL_hostname env url with
  | None => false
  | Some host =>
      let hostname := normalizeHost host in
      List.existsb
        (fun platform => includes hostname (replaceFirst "www." EmptyString platform))
        supportedPlatforms
  end.

Definition extractPlatform (url : string) : string :=
  match URL_hostname env url with
  | None => "Unknown"
  | Some host =>
      let hostname := normalizeHost host in
      if includes hostname "youtube" || includes hostname "youtu.be" then "YouTube"
      else if includes hostname "facebook" || includes hostname "fb.watch" then "Facebook"
      else if includes hostname "instagram" then "Instagram"
      else if includes hostname "twitter" || includes hostname "x.com" then "Twitter/X"
      else if includes hostname "tiktok" then "TikTok"
      else "Unknown"
  end.

End Helpers.

(** ** The job table and the request handlers ([videoController.ts]) *)

Inductive Body : Type :=
| BodyError (message : string)
| BodyNotComplete (message : string) (status : VideoStatus) (progress : Z)
| BodyStarted (id : string)
| BodyStatus (id : string) (status : VideoStatus) (progress : Z)
             (title : option string) (platform : string)
             (transcription : option string) (error : option string)
| BodyAnalysisStarted (id : string)
| BodyResults (job : VideoData.t) (summary : Summary.t)
| BodyDeleted.

Record Response : Type := mkResponse {
  statusCode : Z;
  body : Body;
}.

(** A background call started by a handler after it has answered. *)
Inductive Task : Type :=
| TaskProcess (videoId url language : string)
| TaskAnalyze (videoId transcription language : string).

(** A string that passes [if (!s)]: present and not empty. *)
Definition nonEmpty (s : option string) : option string :=
  match s with
  | Some EmptyString | None => None
  | Some s' => Some s'
  end.

Definition setProgress (status : VideoStatus) (progress : Z) (job : VideoData.t)
  : VideoData.t :=
  VideoData.mk (VideoData.id job) (VideoData.url job) (VideoData.platform job)
    (VideoData.title job) (VideoData.duration job) (VideoData.language job)
    status progress (VideoData.audioPath job) (VideoData.transcription job)
    (VideoData.claims job) (VideoData.overallScore job) (VideoData.error job).

Definition setDownload (d : DownloadResult.t) (job : VideoData.t) : VideoData.t :=
  VideoData.mk (VideoData.id job) (VideoData.url job) (VideoData.platform job)
    (Some (DownloadResult.title d)) (Some (DownloadResult.duration d))
    (VideoData.language job) (VideoData.status job) (VideoData.progress job)
    (Some (DownloadResult.audioPath d)) (VideoData.transcription job)
    (VideoData.claims job) (VideoData.overallScore job) (VideoData.error job).

Definition setTranscription (t : string) (job : VideoData.t) : VideoData.t :=
  VideoData.mk (VideoData.id job) (VideoData.url job) (VideoData.platform job)
    (VideoData.title job) (VideoData.duration job) (VideoData.language job)
    (VideoData.status job) (VideoData.progress job) (VideoData.audioPath job)
    (Some t) (VideoData.claims job) (VideoData.overallScore job) (VideoData.error job).

Definition setResult (r : FactCheckResult.t) (job : VideoData.t) : VideoData.t :=
  VideoData.mk (VideoData.id job) (VideoData.url job) (VideoData.platform job)
    (VideoData.title job) (VideoData.duration job) (VideoData.language job)
    (VideoData.status job) (VideoData.progress job) (VideoData.audioPath job)
    (VideoData.transcription job) (Some (FactCheckResult.claims r))
    (Some (FactCheckResult.overallScore r)) (VideoData.error job).

Definition setError (message : string) (job : VideoData.t) : VideoData.t :=
  VideoData.mk (VideoData.id job) (VideoData.url job) (VideoData.platform job)
    (VideoData.title job) (VideoData.duration job) (VideoData.language job)
    error (VideoData.progress job) (VideoData.audioPath job)
    (VideoData.transcription job) (VideoData.claims job)
    (VideoData.overallScore job) (Some message).

(** [const job = videoJobs.get(videoId); if (job) { ... }]: assignments to
    fields of the stored record other than [status] and [progress]. *)
Definition modifyJob (videoId : string) (f : VideoData.t -> VideoData.t) : M unit :=
  w ← getWorld;
  match videoJobs w !! videoId with
  | Some job => setJobs (<[videoId := f job]> (videoJobs w))
  | None => mret tt
  end.

(** The same for assignments that set [status] or [progress]; each one is
    entered in the trace with the status and progress the record has
    afterwards. *)
Definition writeJob (videoId : string) (f : VideoData.t -> VideoData.t) : M unit :=
  w ← getWorld;
  match videoJobs w !! videoId with
  | Some job =>
      setJobs (<[videoId := f job]> (videoJobs w));;
      emit (EvJobWrite videoId (VideoData.status (f job)) (VideoData.progress (f job)))
  | None => mret tt
  end.

Section Controller.
Context (env : Env).

Definition processVideo (url language : option string)
  : M (Response * option Task) :=
  match nonEmpty url with
  | None => mret (mkResponse 400 (BodyError "Video URL is required"), None)
  | Some url =>
      match nonEmpty language with
      | None => mret (mkResponse 400 (BodyError "Language is required"), None)
      | Some language =>
          if negb (isValidPlatformUrl env url) then
            mret (mkResponse 400 (BodyError
              "Unsupported platform. Supported: YouTube, Facebook, Instagram, Twitter/X, TikTok"),
                  None)
          else
            match findLanguage language with
            | None => mret (mkResponse 400 (BodyError "Unsupported language"), None)
            | Some _ =>
                videoId ← generateId env;
                let videoData :=
                  VideoData.mk videoId url (extractPlatform env url) None None
                               language pending 0 None None None None None in
                w ← getWorld;
                setJobs (<[videoId := videoData]> (videoJobs w));;
                emit (EvJobWrite videoId pending 0);;
                mret (mkResponse 200 (BodyStarted videoId),
                      Some (TaskProcess videoId url language))
            end
      end
  end.

Definition processVideoAsync (videoId url language : string) : M unit :=
  let updateStatus (status : VideoStatus) (progress : Z) : M unit :=
    writeJob videoId (setProgress status progress) in
  r ← attempt
        (updateStatus downloading 5;;
         downloadResult ← downloadVideo env url videoId
                            (Some (fun progress => updateStatus downloading progress));
         modifyJob videoId (setDownload downloadResult);;
         updateStatus transcribing 45;;
         transcriptionResult ←
           transcribeAudio env (DownloadResult.audioPath downloadResult) language
                           (Some (fun progress => updateStatus transcribing progress));
         writeJob videoId
           (fun job => setProgress completed 70
              (setTranscription (TranscriptionResult.transcription transcriptionResult) job)));
  match r with
  | Ok _ => mret tt
  | Throw errorMessage => writeJob videoId (setError errorMessage)
  end.

Definition getVideoStatus (id : string) : M Response :=
  w ← getWorld;
  match videoJobs w !! id with
  | None => mret (mkResponse 404 (BodyError "Video not found"))
  | Some job =>
      mret (mkResponse 200
        (BodyStatus (VideoData.id job) (VideoData.status job) (VideoData.progress job)
           (VideoData.title job) (VideoData.platform job)
           (if decide (VideoData.status job = completed \/ VideoData.status job = analyzing)
            then VideoData.transcription job else None)
           (VideoData.error job)))
  end.

Definition analyzeVideo (id : string) : M (Response * option Task) :=
  w ← getWorld;
  match videoJobs w !! id with
  | None => mret (mkResponse 404 (BodyError "Video not found"), None)
  | Some job =>
      match nonEmpty (VideoData.transcription job) with
      | None => mret (mkResponse 400 (BodyError "Video not yet transcribed"), None)
      | Some transcription =>
          if decide (VideoData.status job = analyzing) then
            mret (mkResponse 400 (BodyError "Analysis already in progress"), None)
          else
            writeJob id (setProgress analyzing 75);;
            mret (mkResponse 200 (BodyAnalysisStarted (VideoData.id job)),
                  Some (TaskAnalyze id transcription (VideoData.language job)))
      end
  end.

Definition analyzeVideoAsync (videoId transcription language : string) : M unit :=
  w ← getWorld;
  match videoJobs w !! videoId with
  | None => mret tt
  | Some _ =>
      r ← attempt
            (result ← factCheckTranscription env transcription language
                        (Some (fun progress =>
                           writeJob videoId
                             (fun job => setProgress (VideoData.status job) progress job)));
             writeJob videoId (fun job => setProgress completed 100 (setResult result job)));
      match r with
      | Ok _ => mret tt
      | Throw errorMessage => writeJob videoId (setError errorMessage)
      end
  end.

Definition getVideoResults (id : string) : M Response :=
  w ← getWorld;
  match videoJobs w !! id with
  | None => mret (mkResponse 404 (BodyError "Video not found"))
  | Some job =>
      match VideoData.claims job, VideoData.overallScore job with
      | Some claims, Some _ => mret (mkResponse 200 (BodyResults job (summarize claims)))
      | _, _ =>
          mret (mkResponse 400
            (BodyNotComplete "Analysis not yet complete"
               (VideoData.status job) (VideoData.progress job)))
      end
  end.

Definition deleteVideo (id : string) : M Response :=
  w ← getWorld;
  match videoJobs w !! id with
  | None => mret (mkResponse 404 (BodyError "Video not found"))
  | Some _ =>
      setJobs (delete id (videoJobs w));;
      mret (mkResponse 200 BodyDeleted)
  end.

Definition runTask (t : Task) : M unit :=
  match t with
  | TaskProcess videoId url language => processVideoAsync videoId url language
  | TaskAnalyze videoId transcription language =>
      analyzeVideoAsync videoId transcription language
  end.

End Controller.

(** The progress values written to job [id], oldest first, each with the
    status the job had right after the write. *)
Definition jobHistory (id : string) (events : list Event) : list (VideoStatus * Z) :=
  List.flat_map
    (fun e => match e with
              | EvJobWrite id' status progress =>
                  if String.eqb id' id then [(status, progress)] else []
              | _ => []
              end) events.

Definition initialWorld : World := mkWorld ∅ 0 0 0 0 [].

(** ** Concrete worlds used to run the model *)

Definition activeFile : File.t := File.mk "files/f0" "https://files/f0" "audio/mpeg" ACTIVE.

(** A simple instance of the URL parser: the host is what stands between
    [https://] and the next [/]; the platform parser agrees on such URLs. *)
Definition simpleHostname (url : string) : option string :=
  if String.prefix "https://" url then
    let rest := String.substring 8 (String.length url - 8) url in
    match String.index 0 "/" rest with
    | Some n => Some (String.substring 0 n rest)
    | None => Some rest
    end
  else None.

(** An environment with a configured key, an audio file of the given
    duration and size, identity [trim], and the given outcomes of the
    external calls. *)
Definition scenario (duration : Q) (size : Z)
           (answers : nat -> Result string) (parse : string -> option json)
           (uploads : nat -> Result File.t) (polls : nat -> Result File.t)
           (extract : nat -> bool) : Env :=
  mkEnv "key" answers parse (fun n => "job-" +:+ pretty n)
        uploads polls (fun _ => Some duration) extract (fun _ => Some size)
        (fun s => s) (fun p n => p +:+ "_chunk" +:+ pretty n)
        simpleHostname (Ok (VideoInfo.mk "title" duration)) true (Ok None).

(** A callback that records the reported progress in the trace. *)
Definition logProgress : option (Z -> M unit) := Some (fun p => emit (EvProgress p)).

Definition verdict (index : Z) (status : string) (sources : list json) : json :=
  JObj [("claimIndex", JNum (inject_Z index)); ("status", JStr status);
        ("score", JNum 80); ("explanation", JStr "checked");
        ("sources", JArr sources)].

Definition claimText (text : string) : json := JObj [("text", JStr text)].

Definition fourClaims : json :=
  JArr [claimText "a"; claimText "b"; claimText "c"; claimText "d"].

Definition fourVerdicts : json :=
  JArr [verdict 0 "true" [JStr "https://example.org"]; verdict 1 "true" [];
        verdict 2 "false" [JStr "https://example.org"];
        verdict 3 "partially_true" []].

(** The extractor answers with [fourClaims], the verifier with
    [fourVerdicts]. *)
Definition fourClaimsEnv : Env :=
  scenario 60 1000
    (fun n => match n with O => Ok "claims" | _ => Ok "verdicts" end)
    (fun s => if String.eqb s "claims" then Some fourClaims
              else if String.eqb s "verdicts" then Some fourVerdicts else None)
    (fun _ => Ok activeFile) (fun _ => Ok activeFile) (fun _ => true).

(** ** Reference descriptions used in the statements *)





(** Property [k] of a JSON value that is not [null]. *)
Definition field (k : string) (v : json) : jsval :=
  match get (Some v) k with
  | Ok x => x
  | Throw _ => None
  end.




Definition transcribedJob (status : VideoStatus) (progress : Z) : VideoData.t :=
  VideoData.mk "job-0" "https://www.youtube.com/watch" "YouTube" (Some "title")
               (Some 60%Q) "en" status progress (Some "temp/job-0/audio.mp3")
               (Some "transcript") None None None.

(** A world whose table holds one transcribed job. *)
Definition transcribedWorld : World :=
  mkWorld {[ "job-0" := transcribedJob analyzing 75 ]} 0 0 0 1 [].





(** The ffmpeg runs recorded in a trace. *)
Definition ffmpegRuns (events : list Event) : list Event :=
  List.filter (fun e => match e with EvFfmpeg _ _ _ => true | _ => false end) events.



(** A computation that runs no ffmpeg. *)
Definition noFfmpeg {A} (m : M A) : Prop :=
  forall w r w', m w = (r, w') -> ffmpegRuns (trace w') = ffmpegRuns (trace w).

(** A 1200 s audio of which every window can be cut, uploaded and
    transcribed. *)
Definition longAudioEnv : Env :=
  scenario 1200 9000000 (fun n => Ok ("part " +:+ pretty n)) (fun _ => None)
           (fun _ => Ok activeFile) (fun _ => Ok activeFile) (fun _ => true).

(** *** The retry discipline in the words of the specification

    A retry loop goes through the outcomes of its attempts in order. It
    stops at the first outcome it accepts and returns it; when none is
    accepted it throws the error of the last attempt that threw, or its
    fallback error when none threw. *)
Fixpoint retryOutcome {A B} (accept : A -> option B) (fallback : Error)
         (outs : list (Result A)) (lastError : option Error) : Result B :=
  match outs with
  | [] => Throw (match lastError with Some e => e | None => fallback end)
  | Ok a :: rest =>
      match accept a with
      | Some b => Ok b
      | None => retryOutcome accept fallback rest lastError
      end
  | Throw e :: rest => retryOutcome accept fallback rest (Some e)
  end.

(** The calls and pauses of such a loop: one call per attempt, a pause
    after a thrown attempt ([pauseOf] gives it from the attempt number). *)
Fixpoint retryEvents {A B} (accept : A -> option B) (call : Event)
         (pauseOf : nat -> list Event) (attempt_no : nat)
         (outs : list (Result A)) : list Event :=
  match outs with
  | [] => []
  | Ok a :: rest =>
      call :: match accept a with
              | Some _ => []
              | None => retryEvents accept call pauseOf (S attempt_no) rest
              end
  | Throw _ :: rest =>
      call :: pauseOf attempt_no ++ retryEvents accept call pauseOf (S attempt_no) rest
  end.

(** Pause of the upload loop after attempt [attempt_no]. *)
Definition uploadPause (maxRetries attempt_no : nat) : list Event :=
  if Nat.ltb attempt_no maxRetries then [EvSleep (2 ^ Z.of_nat attempt_no * 1000)] else [].



(** External calls and pauses recorded in a trace. *)
Definition externalCalls (events : list Event) : list Event :=
  List.filter (fun e => match e with
                        | EvSleep _ | EvUploadFile _ | EvGenerateContent => true
                        | _ => false
                        end) events.

Definition sleeps (events : list Event) : list Z :=
  List.flat_map (fun e => match e with EvSleep ms => [ms] | _ => [] end) events.


(** A computation that returns normally, makes no external call and
    does not pause. *)
Definition quietM {A} (m : M A) : Prop :=
  forall w, exists a w',
    m w = (Ok a, w') /\
    n_generateContent w' = n_generateContent w /\
    n_uploadFile w' = n_uploadFile w /\
    externalCalls (trace w') = externalCalls (trace w).

(** The outcomes of the next [n] calls of a kind, from call number [from]. *)
Definition nextOutcomes {A} (out : nat -> Result A) (from n : nat) : list (Result A) :=
  List.map out (List.seq from n).


(** Every upload fails, each time with another error. *)
Definition failingUploadsEnv : Env :=
  scenario 60 5000000 (fun _ => Ok "text") (fun _ => None)
           (fun n => Throw ("upload error " +:+ pretty n)) (fun _ => Ok activeFile)
           (fun _ => true).

(** What a chunk contributes to the merged transcript when the model
    answered [text] for it. *)
Definition renderChunk (env : Env) (survivor : ChunkInfo.t * string) : string :=
  chunkHeader (ChunkInfo.startTime (fst survivor)) +:+ trim env (snd survivor).




(** A request to process a video followed by the background task it
    starts, from the empty table. *)
Definition runJob (env : Env) (url language : string) : World :=
  match processVideo env (Some url) (Some language) initialWorld with
  | (Ok (_, Some task), w) => snd (runTask env task w)
  | (_, w) => w
  end.

(** [l] never decreases from one element to the next. *)
Fixpoint nonDecreasing (l : list Z) : bool :=
  match l with
  | a :: (b :: _) as rest => Z.leb a b && nonDecreasing rest
  | _ => true
  end.

(** A 60 s audio of 1000 bytes that the model transcribes at once. *)
Definition shortAudioEnv : Env :=
  scenario 60 1000 (fun _ => Ok "hello") (fun _ => None)
           (fun _ => Ok activeFile) (fun _ => Ok activeFile) (fun _ => true).

(** A 60 s audio of 5 MB whose transcription succeeds at the third call
    to the model. *)
Definition thirdAttemptEnv : Env :=
  scenario 60 5000000
           (fun n => match n with 2%nat => Ok "hello" | _ => Throw "overloaded" end)
           (fun _ => None) (fun _ => Ok activeFile) (fun _ => Ok activeFile)
           (fun _ => true).

(** The model is unreachable. *)
Definition offlineEnv : Env :=
  scenario 60 1000 (fun _ => Throw "fetch failed") (fun _ => None)
           (fun _ => Ok activeFile) (fun _ => Ok activeFile) (fun _ => true).

(** The world after the analysis of the transcribed job has failed. *)
Definition failedAnalysisWorld : World :=
  snd (analyzeVideoAsync offlineEnv "job-0" "transcript" "en" transcribedWorld).


(** The claim about [error] as the specification words it, for the
    analysis request: a job in [error] is still in [error] afterwards. *)
Definition errorIsTerminal : Prop :=
  forall w id job r w' job',
    videoJobs w !! id = Some job ->
    VideoData.status job = error ->
    analyzeVideo id w = (r, w') ->
    videoJobs w' !! id = Some job' ->
    VideoData.status job' = error.




(** ** Further reference descriptions *)

(** One of the four values of [ClaimStatus]. *)
Definition knownStatus (status : jsval) : bool :=
  strict_eq_str status "true" || strict_eq_str status "false" ||
  strict_eq_str status "partially_true" || strict_eq_str status "unverifiable".

(** The sum of the four per-status counts of a summary. *)
Definition countedClaims (s : Summary.t) : Z :=
  Summary.trueClaims s + Summary.falseClaims s +
  Summary.partiallyTrueClaims s + Summary.unverifiableClaims s.

(** [P] holds after [m] whenever it holds before, whatever [m] returns. *)
Definition keeps {A} (P : World -> Prop) (m : M A) : Prop :=
  forall w r w', P w -> m w = (r, w') -> P w'.

(** A progress value a bar can show. *)
Definition inRange (p : Z) : Prop := 0 <= p <= 100.

(** What holds of every stored job: it is stored under its own id, its
    progress is a percentage, a job in [error] has a message, and claims
    and score come together. *)
Definition jobInv (key : string) (job : VideoData.t) : Prop :=
  VideoData.id job = key /\
  inRange (VideoData.progress job) /\
  (VideoData.status job = error -> is_Some (VideoData.error job)) /\
  (is_Some (VideoData.claims job) <-> is_Some (VideoData.overallScore job)).

Definition tableInv (jobs : gmap string VideoData.t) : Prop :=
  forall key job, jobs !! key = Some job -> jobInv key job.

(** One request served, or one background task run to its end. *)
Inductive step (env : Env) : World -> World -> Prop :=
| step_processVideo url language w r w' :
    processVideo env url language w = (r, w') -> step env w w'
| step_getVideoStatus id w r w' :
    getVideoStatus id w = (r, w') -> step env w w'
| step_analyzeVideo id w r w' :
    analyzeVideo id w = (r, w') -> step env w w'
| step_getVideoResults id w r w' :
    getVideoResults id w = (r, w') -> step env w w'
| step_deleteVideo id w r w' :
    deleteVideo id w = (r, w') -> step env w w'
| step_runTask task w r w' :
    runTask env task w = (r, w') -> step env w w'.

(** The worlds a server started with an empty table can be in. *)
Inductive reachable (env : Env) : World -> Prop :=
| reachable_initial : reachable env initialWorld
| reachable_step w w' : reachable env w -> step env w w' -> reachable env w'.

(** The job a background task works on. *)
Definition taskId (task : Task) : string :=
  match task with
  | TaskProcess videoId _ _ => videoId
  | TaskAnalyze videoId _ _ => videoId
  end.

(** The video cannot be fetched: yt-dlp fails on the request for its
    description. *)
Definition unavailableVideoEnv : Env :=
  mkEnv "key" (fun _ => Ok "hello") (fun _ => None) (fun n => "job-" +:+ pretty n)
        (fun _ => Ok activeFile) (fun _ => Ok activeFile) (fun _ => Some 60%Q)
        (fun _ => true) (fun _ => Some 1000) (fun s => s)
        (fun p n => p +:+ "_chunk" +:+ pretty n)
        simpleHostname (Throw "Video unavailable") true (Ok None).


(** Every key of the job table is an identifier the generator has already
    given out. *)
Definition idsIssued (env : Env) (w : World) : Prop :=
  forall key, is_Some (videoJobs w !! key) ->
    exists k, (k < n_uuid w)%nat /\ key = uuidv4 env k.

(** * Properties *)

(** ** Reasoning about computations in [M] *)

Lemma bind_ok_inv {A B} (m : M A) (k : A -> M B) w b w' :
  (m ≫= k) w = (Ok b, w') ->
  exists a w1, m w = (Ok a, w1) /\ k a w1 = (Ok b, w').
Proof.
  unfold mbind, M_bind. destruct (m w) as [[a|e] w1]; [eauto | discriminate].
Qed.

Lemma bind_ok_run {A B} (m : M A) (k : A -> M B) w a w1 :
  m w = (Ok a, w1) -> (m ≫= k) w = k a w1.
Proof. unfold mbind, M_bind. intros ->. reflexivity. Qed.

Lemma bind_throw_run {A B} (m : M A) (k : A -> M B) w e w1 :
  m w = (Throw e, w1) -> (m ≫= k) w = (Throw e, w1).
Proof. unfold mbind, M_bind. intros ->. reflexivity. Qed.

Lemma try_catch_ok_inv {A} (m : M A) (h : Error -> M A) w a w' :
  try_catch m h w = (Ok a, w') ->
  m w = (Ok a, w') \/ exists e w1, m w = (Throw e, w1) /\ h e w1 = (Ok a, w').
Proof.
  unfold try_catch. destruct (m w) as [[a1|e] w1]; [left; congruence | eauto].
Qed.

Lemma liftR_inv {A} (r : Result A) w a w' :
  liftR r w = (Ok a, w') -> r = Ok a /\ w' = w.
Proof. unfold liftR. intros H. inversion H. auto. Qed.

Ltac inv_bind H :=
  let a := fresh "a" in
  let w1 := fresh "w" in
  let H1 := fresh "Hstep" in
  apply bind_ok_inv in H; destruct H as (a & w1 & H1 & H).

(** ** Scoring (C1) *)

(** What a successful analysis returns: nothing for an empty extraction,
    otherwise the claims assembled from the two answers of the model, with
    the summary and the score computed from these claims. *)
Lemma factCheck_ok_inv env t l cb w r w' :
  factCheckTranscription env t l cb w = (Ok r, w') ->
  r = emptyResult \/
  exists extractionText factCheckText factCheckData wa wb claims,
    factCheckDataOf env (extractedClaimsOf env extractionText) factCheckText
      = Ok factCheckData /\
    js_map (extractedClaimsOf env extractionText) (buildClaim env factCheckData) wa
      = (Ok claims, wb) /\
    r = FactCheckResult.mk claims (computeOverallScore (summarize claims))
                           (summarize claims).
Proof.
  unfold factCheckTranscription. intros H.
  destruct (String.eqb _ _); [discriminate|].
  inv_bind H.
  apply try_catch_ok_inv in H. destruct H as [H | (e & w1 & _ & H)]; [|discriminate].
  inv_bind H. inv_bind H.
  destruct (strict_eq_num _ _).
  - left. inversion H. reflexivity.
  - right. inv_bind H. inv_bind H. inv_bind H. inv_bind H. inv_bind H. inv_bind H.
    apply liftR_inv in Hstep4 as [Hdata ->].
    inversion H; subst. eauto 10.
Qed.

Lemma factCheck_score_of_claims env t l cb w r w' :
  factCheckTranscription env t l cb w = (Ok r, w') ->
  FactCheckResult.summary r = summarize (FactCheckResult.claims r) /\
  FactCheckResult.overallScore r = computeOverallScore (FactCheckResult.summary r).
Proof.
  intros H. apply factCheck_ok_inv in H.
  destruct H as [-> | (? & ? & ? & ? & ? & claims & _ & _ & ->)]; simpl; auto.
Qed.

(** An extraction that parses to the empty array ends the analysis at
    once with the empty report and the score 100. *)
Lemma factCheck_empty_extraction env t l w extractionText :
  String.eqb (geminiApiKey env) EmptyString = false ->
  generateContent_out env (n_generateContent w) = Ok extractionText ->
  parseModelJson env extractionText = Some (JArr []) ->
  exists w', factCheckTranscription env t l None w = (Ok emptyResult, w').
Proof.
  intros Hkey Hext Hparse. unfold factCheckTranscription. rewrite Hkey.
  unfold callProgress, try_catch, generateContent, extractedClaimsOf.
  unfold mbind, M_bind, mret, M_ret. rewrite Hext, Hparse. simpl. eauto.
Qed.

Lemma count_status_map s claims :
  count_status s claims =
  Z.of_nat (List.length (List.filter (fun st => strict_eq_str st s)
                                     (List.map Claim.status claims))).
Proof.
  unfold count_status. f_equal.
  induction claims as [|c claims IH]; simpl; [reflexivity|].
  destruct (strict_eq_str (Claim.status c) s); simpl; congruence.
Qed.

(** C1: the overall score of every returned report is a function of its
    claims alone: 100 when there is no claim, otherwise
    round((100*true + 50*partially_true + 50*unverifiable + 0*false) / total)
    with [Math.round]; claims with statuses true, true, false,
    partially_true score 63. *)
Theorem C1_overall_score env t l cb w r w'
  (Hrun : factCheckTranscription env t l cb w = (Ok r, w')) :
  let claims := FactCheckResult.claims r in
  let score := FactCheckResult.overallScore r in
  (claims = [] -> score = 100) /\
  (claims <> [] ->
   score = Math_round
     (inject_Z (100 * count_status "true" claims
                + 50 * count_status "partially_true" claims
                + 50 * count_status "unverifiable" claims
                + 0 * count_status "false" claims)
      / inject_Z (Z.of_nat (List.length claims)))) /\
  (List.map Claim.status claims
     = [Some (JStr "true"); Some (JStr "true"); Some (JStr "false");
        Some (JStr "partially_true")] ->
   score = 63).
Proof.
  intros claims score.
  destruct (factCheck_score_of_claims _ _ _ _ _ _ _ Hrun) as [Hsum Hscore].
  assert (Hformula : claims <> [] ->
    score = Math_round
     (inject_Z (100 * count_status "true" claims
                + 50 * count_status "partially_true" claims
                + 50 * count_status "unverifiable" claims
                + 0 * count_status "false" claims)
      / inject_Z (Z.of_nat (List.length claims)))).
  { intros Hne. subst score claims. rewrite Hscore, Hsum.
    unfold computeOverallScore, summarize, weightedSum; simpl.
    destruct (FactCheckResult.claims r) as [|c cs]; [contradiction|].
    replace (Z.of_nat (List.length (c :: cs)) =? 0) with false
      by (symmetry; apply Z.eqb_neq; simpl List.length; lia).
    f_equal. f_equal. f_equal. lia. }
  split; [|split].
  - intros Hnil. subst score claims. rewrite Hscore, Hsum, Hnil. reflexivity.
  - exact Hformula.
  - intros Hst. rewrite Hformula.
    + rewrite !count_status_map, Hst.
      replace (List.length claims) with (List.length (List.map Claim.status claims))
        by apply List.length_map.
      rewrite Hst. reflexivity.
    + intros Hnil. rewrite Hnil in Hst. discriminate.
Qed.

Lemma C1_overall_score_witness :
  exists r w',
    factCheckTranscription fourClaimsEnv "transcript" "en" None initialWorld = (Ok r, w') /\
    FactCheckResult.overallScore r = 63.
Proof.
  eexists _, _. split; [vm_compute; reflexivity|].
  refine (proj2 (proj2 (C1_overall_score fourClaimsEnv "transcript" "en" None
                          initialWorld _ _ _)) _);
    vm_compute; reflexivity.
Defined.

(** ** Assembly of the claims (C3, C6) *)


Lemma get_not_null v k : v <> JNull -> get (Some v) k = Ok (field k v).
Proof.
  unfold field. destruct v; simpl; try congruence; intros _; try reflexivity;
    destruct (String.eqb k "length"); reflexivity.
Qed.






(** The claim assembled from an extracted claim and the verdict chosen for
    it. *)
Lemma buildClaim_inv env factCheckData claim index w c w' :
  buildClaim env factCheckData claim index w = (Ok c, w') ->
  exists checkResult sources,
    chosenVerdict factCheckData index = Ok checkResult /\
    get (Some claim) "text" = Ok (Claim.text c) /\
    get checkResult "status" = Ok (Claim.status c) /\
    get checkResult "score" = Ok (Claim.score c) /\
    get checkResult "explanation" = Ok (Claim.explanation c) /\
    get checkResult "sources" = Ok sources /\
    Claim.sources c =
      (if strict_eq_str (Claim.status c) "true" then Some (JArr [])
       else js_or sources (Some (JArr []))).
Proof.
  unfold buildClaim. intros H.
  inv_bind H. apply liftR_inv in Hstep as [Hcr ->].
  inv_bind H. clear Hstep.
  inv_bind H. apply liftR_inv in Hstep as [Htext ->].
  inv_bind H. apply liftR_inv in Hstep as [_ ->].
  inv_bind H. apply liftR_inv in Hstep as [Hst ->].
  inv_bind H. apply liftR_inv in Hstep as [Hsc ->].
  inv_bind H. apply liftR_inv in Hstep as [Hex ->].
  inv_bind H. apply liftR_inv in Hstep as [_ ->].
  inv_bind H. apply liftR_inv in Hstep as [_ ->].
  inv_bind H. apply liftR_inv in Hstep as [Hso ->].
  inversion H; subst; simpl. eauto 10.
Qed.


Lemma mapM_index_inv {A B} (f : A -> nat -> M B) items : forall i0 w ys w',
  mapM_index f items i0 w = (Ok ys, w') ->
  List.length ys = List.length items /\
  forall k y, ys !! k = Some y ->
    exists x wa wb, items !! k = Some x /\ f x (i0 + k)%nat wa = (Ok y, wb).
Proof.
  induction items as [|x items IH]; simpl; intros i0 w ys w' H.
  - inversion H; subst. split; [reflexivity|]. intros k y Hk. discriminate.
  - inv_bind H. inv_bind H. inversion H; subst.
    destruct (IH _ _ _ _ Hstep0) as [Hlen Hall].
    split; [simpl; congruence|].
    intros [|k] y Hk; simpl in Hk.
    + inversion Hk; subst. exists x, w, w0. rewrite Nat.add_0_r. auto.
    + destruct (Hall k y Hk) as (x' & wa & wb & Hx & Hf).
      exists x', wa, wb. split; [exact Hx|]. rewrite <- Nat.add_succ_comm. exact Hf.
Qed.








(** ** Answers of the model that do not parse (C8) *)




Lemma writeJob_present videoId f w job :
  videoJobs w !! videoId = Some job ->
  exists w', writeJob videoId f w = (Ok tt, w') /\
             videoJobs w' = <[videoId := f job]> (videoJobs w) /\
             n_generateContent w' = n_generateContent w /\
             trace w' = trace w ++ [EvJobWrite videoId (VideoData.status (f job))
                                               (VideoData.progress (f job))].
Proof.
  intros Hjob. unfold writeJob, getWorld, mbind, M_bind. rewrite Hjob.
  eexists. split; [reflexivity|]. simpl. auto.
Qed.








(** ** Chunk splitting (C4) *)






















Section SingleUnit.
Context (env : Env) (cb : option (Z -> M unit)).
Hypothesis Hcb : forall q f, cb = Some f -> noFfmpeg (f q).






End SingleUnit.



(** ** Retry loops (C9) *)

Lemma externalCalls_app e1 e2 :
  externalCalls (e1 ++ e2) = externalCalls e1 ++ externalCalls e2.
Proof. apply List.filter_app. Qed.

Lemma uploadLoop_refines env path maxRetries cb :
  (forall p, quietM (callProgress cb p)) ->
  forall todo attempt_no lastError w,
    exists w',
      uploadLoop env todo path maxRetries cb attempt_no lastError w
      = (retryOutcome Some "Upload failed after all retries"
           (nextOutcomes (uploadFile_out env) (n_uploadFile w) todo) lastError, w') /\
      externalCalls (trace w') =
      externalCalls (trace w) ++
      retryEvents (@Some File.t) (EvUploadFile path) (uploadPause maxRetries) attempt_no
        (nextOutcomes (uploadFile_out env) (n_uploadFile w) todo).
Proof.
  intros Hcb. induction todo as [|todo IH]; intros attempt_no lastError w.
  - exists w. split; [reflexivity|]. simpl. rewrite app_nil_r. reflexivity.
  - cbn [uploadLoop]. unfold attempt.
    destruct (Hcb (50 + Z.of_nat attempt_no) w) as ([] & w1 & Hp & _ & Hn1 & Ht1).
    unfold mbind at 1, M_bind at 1.
    rewrite (bind_ok_run _ _ _ _ _ Hp); cbv beta.
    unfold nextOutcomes. cbn [List.seq List.map]. fold (nextOutcomes (uploadFile_out env)).
    unfold uploadFile at 1. rewrite Hn1.
    destruct (uploadFile_out env (n_uploadFile w)) as [file|err].
    + eexists. split; [reflexivity|]. simpl.
      rewrite externalCalls_app, Ht1. reflexivity.
    + set (w2 := mkWorld _ _ _ _ _ _).
      assert (Hpause : exists w3,
                 (if Nat.ltb attempt_no maxRetries
                  then sleep (2 ^ Z.of_nat attempt_no * 1000) else mret tt) w2 = (Ok tt, w3) /\
                 n_uploadFile w3 = S (n_uploadFile w) /\
                 externalCalls (trace w3) =
                 externalCalls (trace w) ++ EvUploadFile path :: uploadPause maxRetries attempt_no).
      { unfold uploadPause. destruct (Nat.ltb attempt_no maxRetries).
        - eexists. split; [reflexivity|]. split; [reflexivity|]. simpl.
          rewrite !externalCalls_app, Ht1. simpl. rewrite <- app_assoc. reflexivity.
        - eexists. split; [reflexivity|]. split; [reflexivity|]. simpl.
          rewrite !externalCalls_app, Ht1. reflexivity. }
      destruct Hpause as (w3 & Hs & Hn3 & Ht3).
      rewrite (bind_ok_run _ _ _ _ _ Hs); cbv beta.
      destruct (IH (S attempt_no) (Some err) w3) as (w' & Hrun & Ht).
      exists w'. rewrite Hrun, Hn3. split; [reflexivity|].
      rewrite Ht, Ht3, Hn3. cbn [retryOutcome retryEvents].
      rewrite <- !app_assoc. reflexivity.
Qed.





(** ** Chunked transcription (C5) *)

Lemma uploadLoop_keeps_generate env path maxRetries :
  forall todo attempt_no lastError w,
    exists r w',
      uploadLoop env todo path maxRetries None attempt_no lastError w = (r, w') /\
      n_generateContent w' = n_generateContent w.
Proof.
  induction todo as [|todo IH]; intros attempt_no lastError w.
  - eexists _, _. split; reflexivity.
  - cbn [uploadLoop]. unfold attempt, callProgress.
    unfold mbind, M_bind, mret, M_ret, uploadFile.
    destruct (uploadFile_out env (n_uploadFile w)) as [file|err].
    + eexists _, _. split; reflexivity.
    + destruct (Nat.ltb attempt_no maxRetries).
      * cbn [sleep emit].
        match goal with |- context [uploadLoop env todo _ _ _ _ _ ?w1] =>
          destruct (IH (S attempt_no) (Some err) w1) as (r & w' & Hrun & Hn) end.
        exists r, w'. split; [exact Hrun | exact Hn].
      * match goal with |- context [uploadLoop env todo _ _ _ _ _ ?w1] =>
          destruct (IH (S attempt_no) (Some err) w1) as (r & w' & Hrun & Hn) end.
        exists r, w'. split; [exact Hrun | exact Hn].
Qed.

Lemma waitWhileProcessing_keeps_generate env :
  forall todo waitCount file w,
    exists file' w',
      waitWhileProcessing env todo waitCount file None w = (Ok file', w') /\
      n_generateContent w' = n_generateContent w.
Proof.
  induction todo as [|todo IH]; intros waitCount file w.
  - eexists _, _. split; reflexivity.
  - cbn [waitWhileProcessing]. destruct (decide _); [|eexists _, _; split; reflexivity].
    unfold attempt, callProgress, sleep, emit, getFile.
    unfold mbind, M_bind, mret, M_ret.
    match goal with |- context [waitWhileProcessing env todo ?c ?f None ?w1] =>
      destruct (IH c f w1) as (file' & w' & Hrun & Hn) end.
    exists file', w'. split; [exact Hrun | exact Hn].
Qed.

(** One chunk: whatever happens to it, the loop goes on; the list of
    transcripts grows by the rendered answer exactly when the model gave a
    usable one. *)
Lemma transcribeChunk_outcome env chunk acc w :
  exists res w1,
    attempt (transcribeChunk env chunk acc) w = (Ok res, w1) /\
    ((n_generateContent w1 = n_generateContent w /\
      (res = Ok None \/ exists e, res = Throw e)) \/
     (n_generateContent w1 = S (n_generateContent w) /\
      match generateContent_out env (n_generateContent w) with
      | Ok text =>
          res = Ok (Some (if hasText env text
                          then acc ++ [renderChunk env (chunk, text)] else acc))
      | Throw e => res = Throw e
      end)).
Proof.
  unfold attempt, transcribeChunk, uploadWithRetry.
  destruct (uploadLoop_keeps_generate env (ChunkInfo.path chunk) 3 3 1 None w)
    as (r0 & w0 & Hup & Hn0).
  unfold mbind at 1, M_bind at 1. rewrite Hup.
  destruct r0 as [uploaded|e]; [|eexists _, _; split; [reflexivity|]; left; eauto].
  destruct (waitWhileProcessing_keeps_generate env 30 0 uploaded w0)
    as (file & w2 & Hwait & Hn2).
  rewrite (bind_ok_run _ _ _ _ _ Hwait); cbv beta.
  destruct (decide _); [eexists _, _; split; [reflexivity|]; left; split; [congruence|eauto]|].
  unfold mbind at 1, M_bind at 1, generateContent at 1.
  rewrite Hn2, Hn0.
  destruct (generateContent_out env (n_generateContent w)) as [text|e].
  - eexists _, _. split; [reflexivity|]. right. split; [simpl; congruence|].
    reflexivity.
  - eexists _, _. split; [reflexivity|]. right. split; [simpl; congruence|].
    reflexivity.
Qed.





Lemma quietM_None p : quietM (callProgress None p).
Proof. intros w. exists tt, w. repeat split. Qed.

(** The callbacks the controller passes write to the job table only. *)
Lemma quietM_writeJob videoId (f : Z -> VideoData.t -> VideoData.t) p :
  quietM (callProgress (Some (fun progress => writeJob videoId (f progress))) p).
Proof.
  intros w. unfold callProgress, writeJob, getWorld, mbind, M_bind.
  destruct (videoJobs w !! videoId) as [job|].
  - eexists tt, _. split; [reflexivity|]. simpl.
    rewrite externalCalls_app, app_nil_r. auto.
  - exists tt, w. auto.
Qed.

Lemma noFfmpeg_writeJob videoId f : noFfmpeg (writeJob videoId f).
Proof.
  intros w r w' H. unfold writeJob, getWorld, mbind, M_bind in H.
  destruct (videoJobs w !! videoId) as [job|]; inversion H; subst; simpl; [|reflexivity].
  unfold ffmpegRuns. rewrite List.filter_app. apply app_nil_r.
Qed.



(** ** Progress of a job (C2) *)

(** C2 (the code departs from the claim): on a 1200 s audio, cut into four
    chunks that are all transcribed, the callbacks of the chunked path
    report 95 and 100 while the job is [transcribing]; the controller then
    stores 70 with [completed]. The job never is in [error], and its
    progress decreases. *)
Theorem C2_progress_drops_after_chunking :
  let history :=
    jobHistory "job-0" (trace (runJob longAudioEnv "https://www.youtube.com/watch" "en")) in
  history =
    [(pending, 0); (downloading, 5); (downloading, 10); (downloading, 15);
     (downloading, 25); (downloading, 40); (transcribing, 45); (transcribing, 45);
     (transcribing, 48); (transcribing, 50); (transcribing, 50); (transcribing, 60);
     (transcribing, 70); (transcribing, 80); (transcribing, 95); (transcribing, 100);
     (completed, 70)] /\
  Forall (fun update => fst update <> error) history /\
  nonDecreasing (List.map snd history) = false.
Proof.
  assert (H : jobHistory "job-0"
                (trace (runJob longAudioEnv "https://www.youtube.com/watch" "en")) =
    [(pending, 0); (downloading, 5); (downloading, 10); (downloading, 15);
     (downloading, 25); (downloading, 40); (transcribing, 45); (transcribing, 45);
     (transcribing, 48); (transcribing, 50); (transcribing, 50); (transcribing, 60);
     (transcribing, 70); (transcribing, 80); (transcribing, 95); (transcribing, 100);
     (completed, 70)]) by (vm_compute; reflexivity).
  cbv zeta. rewrite H. split; [reflexivity|]. split; [|reflexivity].
  repeat constructor; discriminate.
Qed.

(** The reports of the chunked path alone, as a caller of
    [transcribeAudio] receives them. *)
Example progress_reports_of_chunked_path :
  List.flat_map (fun e => match e with EvProgress p => [p] | _ => [] end)
    (trace (snd (transcribeAudio longAudioEnv "audio.mp3" "en" logProgress initialWorld)))
  = [45; 48; 50; 50; 60; 70; 80; 95; 100].
Proof. vm_compute. reflexivity. Qed.

(** The single-unit inline path, for comparison: it ends its reports with
    70, the value the controller stores. *)
Example progress_of_inline_path :
  let history :=
    jobHistory "job-0" (trace (runJob shortAudioEnv "https://www.youtube.com/watch" "en")) in
  List.map snd history = [0; 5; 10; 15; 25; 40; 45; 45; 48; 50; 55; 60; 70; 70] /\
  nonDecreasing (List.map snd history) = true.
Proof. vm_compute. split; reflexivity. Qed.
Example progress_of_file_api_third_attempt :
  List.map snd
    (jobHistory "job-0"
       (trace (runJob thirdAttemptEnv "https://www.youtube.com/watch" "en")))
  = [0; 5; 10; 15; 25; 40; 45; 45; 48; 50; 51; 55; 65; 67; 69; 71; 70; 70].
Proof. vm_compute. reflexivity. Qed.


(** ** The [error] status (C7) *)

(** The claim of C7 fails: after an analysis that failed, the job is in
    [error] and still has its transcript; the next analysis request puts
    it back to [analyzing]. *)
Lemma C7_counterexample :
  (exists job job' response task w',
     videoJobs failedAnalysisWorld !! "job-0" = Some job /\
     VideoData.status job = error /\
     analyzeVideo "job-0" failedAnalysisWorld = (Ok (response, Some task), w') /\
     videoJobs w' !! "job-0" = Some job' /\
     VideoData.status job' = analyzing) /\
  ~ errorIsTerminal.
Proof.
  assert (Hrun : exists job job' response task w',
     videoJobs failedAnalysisWorld !! "job-0" = Some job /\
     VideoData.status job = error /\
     analyzeVideo "job-0" failedAnalysisWorld = (Ok (response, Some task), w') /\
     videoJobs w' !! "job-0" = Some job' /\
     VideoData.status job' = analyzing).
  { eexists _, _, _, _, _.
    split; [vm_compute; reflexivity|]. split; [reflexivity|].
    split; [vm_compute; reflexivity|]. split; [vm_compute; reflexivity|]. reflexivity. }
  split; [exact Hrun|].
  destruct Hrun as (job & job' & response & task & w' & Hjob & Hst & Han & Hjob' & Hst').
  intros Hterminal.
  specialize (Hterminal _ _ _ _ _ _ Hjob Hst Han Hjob'). congruence.
Qed.

(** C7 as amended: the analysis request moves a job that has a transcript
    and is not being analysed to [analyzing], whatever its status (also
    from [error]), and refuses any other job without touching it. A job in
    [error] without transcript (a failed download or transcription) stays
    as it is under every request. *)
Theorem C7_error_terminal_without_transcript w id job
  (Hjob : videoJobs w !! id = Some job) :
  (forall t,
     nonEmpty (VideoData.transcription job) = Some t ->
     VideoData.status job <> analyzing ->
     exists w',
       analyzeVideo id w =
       (Ok (mkResponse 200 (BodyAnalysisStarted (VideoData.id job)),
            Some (TaskAnalyze id t (VideoData.language job))), w') /\
       videoJobs w' !! id = Some (setProgress analyzing 75 job)) /\
  (nonEmpty (VideoData.transcription job) = None \/ VideoData.status job = analyzing ->
   exists message,
     analyzeVideo id w = (Ok (mkResponse 400 (BodyError message), None), w)) /\
  (VideoData.status job = error ->
   nonEmpty (VideoData.transcription job) = None ->
   (exists message,
      analyzeVideo id w = (Ok (mkResponse 400 (BodyError message), None), w)) /\
   (exists response, getVideoStatus id w = (Ok response, w)) /\
   (exists response, getVideoResults id w = (Ok response, w)) /\
   (forall id' r w', id' <> id -> deleteVideo id' w = (r, w') ->
                     videoJobs w' !! id = Some job) /\
   (forall env url language r w',
      uuidv4 env (n_uuid w) <> id ->
      processVideo env url language w = (r, w') ->
      videoJobs w' !! id = Some job)).
Proof.
  assert (Hrefuse : nonEmpty (VideoData.transcription job) = None \/
                    VideoData.status job = analyzing ->
                    exists message,
                      analyzeVideo id w = (Ok (mkResponse 400 (BodyError message), None), w)).
  { intros Hcase. unfold analyzeVideo, getWorld, mbind, M_bind. rewrite Hjob.
    destruct (nonEmpty (VideoData.transcription job)) as [t|] eqn:Ht.
    - destruct Hcase as [Hcase|Hcase]; [discriminate|].
      destruct (decide _); [|contradiction]. eauto.
    - eauto. }
  split; [|split; [exact Hrefuse|]].
  - intros t Ht Hst. unfold analyzeVideo, getWorld. unfold mbind at 1, M_bind at 1.
    rewrite Hjob, Ht. destruct (decide _); [contradiction|].
    destruct (writeJob_present id (setProgress analyzing 75) w job Hjob)
      as (w' & Hw & Hjobs & _).
    exists w'. rewrite (bind_ok_run _ _ _ _ _ Hw). split; [reflexivity|].
    rewrite Hjobs. apply lookup_insert_eq.
  - intros Hst Hnone. split; [apply Hrefuse; auto|].
    split; [|split; [|split]].
    + unfold getVideoStatus, getWorld, mbind, M_bind. rewrite Hjob. eauto.
    + unfold getVideoResults, getWorld, mbind, M_bind. rewrite Hjob.
      destruct (VideoData.claims job), (VideoData.overallScore job); eauto.
    + intros id' r w' Hne Hdel. unfold deleteVideo, getWorld, mbind, M_bind in Hdel.
      destruct (videoJobs w !! id'); inversion Hdel; subst; simpl; [|exact Hjob].
      rewrite lookup_delete_ne; [exact Hjob | exact Hne].
    + intros env url language r w' Hne Hrun. unfold processVideo in Hrun.
      destruct (nonEmpty url); [|inversion Hrun; subst; exact Hjob].
      destruct (nonEmpty language); [|inversion Hrun; subst; exact Hjob].
      destruct (negb _); [inversion Hrun; subst; exact Hjob|].
      destruct (findLanguage _); [|inversion Hrun; subst; exact Hjob].
      inversion Hrun; subst; simpl. rewrite lookup_insert_ne; [exact Hjob | exact Hne].
Qed.

Lemma C7_error_terminal_without_transcript_witness :
  exists w',
    analyzeVideo "job-0" failedAnalysisWorld =
    (Ok (mkResponse 200 (BodyAnalysisStarted "job-0"),
         Some (TaskAnalyze "job-0" "transcript" "en")), w') /\
    videoJobs w' !! "job-0"
    = Some (setProgress analyzing 75
              (setError "Fact-checking failed: fetch failed" (transcribedJob analyzing 75))).
Proof.
  refine (proj1 (C7_error_terminal_without_transcript failedAnalysisWorld "job-0"
                   (setError "Fact-checking failed: fetch failed"
                             (transcribedJob analyzing 75)) _)
                "transcript" _ _).
  - vm_compute. reflexivity.
  - reflexivity.
  - discriminate.
Defined.

(** ** Submission (C10) *)






(** * Further properties of the services *)

(** ** Summary and score *)

Lemma knownStatus_exclusive status :
  let b s := if strict_eq_str status s then 1 else 0 in
  b "true" + b "false" + b "partially_true" + b "unverifiable"
  = if knownStatus status then 1 else 0.
Proof.
  unfold knownStatus. destruct status as [[| | |s| |]|]; try reflexivity.
  cbn [strict_eq_str].
  destruct (String.eqb_spec s "true") as [->|]; [reflexivity|].
  destruct (String.eqb_spec s "false") as [->|]; [reflexivity|].
  destruct (String.eqb_spec s "partially_true") as [->|]; [reflexivity|].
  destruct (String.eqb_spec s "unverifiable") as [->|]; reflexivity.
Qed.

Lemma count_status_cons s c claims :
  count_status s (c :: claims)
  = (if strict_eq_str (Claim.status c) s then 1 else 0) + count_status s claims.
Proof.
  unfold count_status. cbn [List.filter].
  destruct (strict_eq_str (Claim.status c) s); cbn [List.length]; lia.
Qed.

Lemma countedClaims_known claims :
  countedClaims (summarize claims)
  = Z.of_nat (List.length (List.filter (fun c => knownStatus (Claim.status c)) claims)).
Proof.
  unfold countedClaims, summarize. cbn [Summary.trueClaims Summary.falseClaims
    Summary.partiallyTrueClaims Summary.unverifiableClaims].
  induction claims as [|c claims IH]; [reflexivity|].
  rewrite !count_status_cons. cbn [List.filter].
  pose proof (knownStatus_exclusive (Claim.status c)) as Hex. cbv zeta in Hex.
  destruct (knownStatus (Claim.status c)); cbn [List.length]; lia.
Qed.

Lemma counts_within_total claims :
  let s := summarize claims in
  0 <= Summary.totalClaims s /\
  0 <= Summary.trueClaims s /\ 0 <= Summary.falseClaims s /\
  0 <= Summary.partiallyTrueClaims s /\ 0 <= Summary.unverifiableClaims s /\
  countedClaims s <= Summary.totalClaims s.
Proof.
  cbv zeta.
  split; [cbn [summarize Summary.totalClaims]; lia|].
  split; [unfold summarize, count_status; simpl; lia|].
  split; [unfold summarize, count_status; simpl; lia|].
  split; [unfold summarize, count_status; simpl; lia|].
  split; [unfold summarize, count_status; simpl; lia|].
  rewrite countedClaims_known. cbn [summarize Summary.totalClaims].
  pose proof (List.filter_length_le (fun c => knownStatus (Claim.status c)) claims). lia.
Qed.

(** The four counts of a summary never exceed the number of claims, and
    they add up to it exactly when every claim carries one of the four
    statuses; a claim with any other status (the verifier's string is
    stored unchecked) is counted in the total only. *)
Theorem summary_counts claims :
  let s := summarize claims in
  Summary.totalClaims s = Z.of_nat (List.length claims) /\
  0 <= Summary.trueClaims s /\ 0 <= Summary.falseClaims s /\
  0 <= Summary.partiallyTrueClaims s /\ 0 <= Summary.unverifiableClaims s /\
  countedClaims s <= Summary.totalClaims s /\
  (countedClaims s = Summary.totalClaims s <->
   Forall (fun c => knownStatus (Claim.status c) = true) claims).
Proof.
  cbv zeta. split; [reflexivity|].
  split; [unfold summarize, count_status; simpl; lia|].
  split; [unfold summarize, count_status; simpl; lia|].
  split; [unfold summarize, count_status; simpl; lia|].
  split; [unfold summarize, count_status; simpl; lia|].
  rewrite countedClaims_known. cbn [summarize Summary.totalClaims].
  split.
  - pose proof (List.filter_length_le (fun c => knownStatus (Claim.status c)) claims). lia.
  - induction claims as [|c claims IH]; [split; [constructor | reflexivity]|].
    cbn [List.filter].
    pose proof (List.filter_length_le (fun c => knownStatus (Claim.status c)) claims) as Hle.
    destruct (knownStatus (Claim.status c)) eqn:E; cbn [List.length]; split.
    + intros H. constructor; [exact E|]. apply IH. lia.
    + intros H. inversion H; subst. apply IH in H3. lia.
    + intros H. lia.
    + intros H. inversion H; subst. congruence.
Qed.

Lemma computeOverallScore_bounds claims :
  0 <= computeOverallScore (summarize claims) <= 100.
Proof.
  destruct (counts_within_total claims) as (Htot & HT & HF & HP & HU & Hle).
  unfold computeOverallScore. destruct (Z.eqb_spec (Summary.totalClaims (summarize claims)) 0);
    [lia|].
  set (s := summarize claims) in *.
  assert (Hn : 0 < Summary.totalClaims s) by lia.
  assert (Hws : 0 <= weightedSum s <= 100 * Summary.totalClaims s).
  { unfold weightedSum, countedClaims in *. lia. }
  assert (Hq0 : (0 <= inject_Z (weightedSum s) / inject_Z (Summary.totalClaims s))%Q).
  { apply Qle_shift_div_l; [rewrite <- (Zlt_Qlt 0); exact Hn|].
    rewrite Qmult_0_l. rewrite <- (Zle_Qle 0). lia. }
  assert (Hq1 : (inject_Z (weightedSum s) / inject_Z (Summary.totalClaims s) <= 100)%Q).
  { apply Qle_shift_div_r; [rewrite <- (Zlt_Qlt 0); exact Hn|].
    change 100%Q with (inject_Z 100). rewrite <- inject_Z_mult, <- Zle_Qle. lia. }
  unfold Math_round. split.
  - change 0 with (Qfloor 0). apply Qfloor_resp_le. lra.
  - change 100 with (Qfloor (100 + (1 # 2))). apply Qfloor_resp_le. lra.
Qed.

(** The overall score of every returned report lies between 0 and 100. *)
Theorem overallScore_bounds env t l cb w r w'
  (Hrun : factCheckTranscription env t l cb w = (Ok r, w')) :
  0 <= FactCheckResult.overallScore r <= 100.
Proof.
  destruct (factCheck_score_of_claims _ _ _ _ _ _ _ Hrun) as [Hsum Hscore].
  rewrite Hscore, Hsum. apply computeOverallScore_bounds.
Qed.

Lemma overallScore_bounds_witness :
  exists r w',
    factCheckTranscription fourClaimsEnv "transcript" "en" None initialWorld = (Ok r, w') /\
    0 <= FactCheckResult.overallScore r <= 100.
Proof.
  eexists _, _. split; [vm_compute; reflexivity|].
  refine (overallScore_bounds fourClaimsEnv "transcript" "en" None initialWorld _ _ _).
  vm_compute. reflexivity.
Defined.

(** ** Failures and shape of the analysis *)

Lemma String_prefix_app p s : String.prefix p (p +:+ s) = true.
Proof.
  induction p as [|c p IH]; [destruct s; reflexivity|].
  simpl. destruct (Ascii.ascii_dec c c); [exact IH | congruence].
Qed.

(** How the analysis fails. Without a key it throws "Gemini API key not
    configured" at once: no progress report, no call to the model, the
    world untouched. With a key every failure is rethrown behind the
    prefix "Fact-checking failed: "; a failure of the first call to the
    model ends the analysis after that single call. *)
Theorem factCheck_failures env t l cb w
  (Hcb : forall p, quietM (callProgress cb p)) :
  (String.eqb (geminiApiKey env) EmptyString = true ->
   factCheckTranscription env t l cb w = (Throw "Gemini API key not configured", w)) /\
  (String.eqb (geminiApiKey env) EmptyString = false ->
   (forall e w', factCheckTranscription env t l cb w = (Throw e, w') ->
      String.prefix "Fact-checking failed: " e = true) /\
   (forall e0, generateContent_out env (n_generateContent w) = Throw e0 ->
      exists w', factCheckTranscription env t l cb w
                 = (Throw ("Fact-checking failed: " +:+ e0), w') /\
                 n_generateContent w' = S (n_generateContent w))).
Proof.
  split; [intros Hkey; unfold factCheckTranscription; rewrite Hkey; reflexivity|].
  intros Hkey. unfold factCheckTranscription. rewrite Hkey.
  destruct (Hcb 75 w) as ([] & w1 & H75 & Hn1 & _ & _).
  rewrite (bind_ok_run _ _ _ _ _ H75); cbv beta. split.
  - intros e w' H. unfold try_catch in H.
    match type of H with (match ?m w1 with _ => _ end) = _ =>
      destruct (m w1) as [[r|e1] w2] end; [discriminate|].
    inversion H; subst. apply String_prefix_app.
  - intros e0 He0. unfold try_catch.
    assert (Hgen : generateContent env w1 =
              (Throw e0,
               mkWorld (videoJobs w1) (S (n_generateContent w1)) (n_uploadFile w1)
                       (n_getFile w1) (n_uuid w1) (trace w1 ++ [EvGenerateContent])))
      by (unfold generateContent; rewrite Hn1, He0; reflexivity).
    rewrite (bind_throw_run _ _ _ _ _ Hgen). eexists. split; [reflexivity|].
    simpl. congruence.
Qed.

Lemma factCheck_failures_witness :
  exists w',
    factCheckTranscription offlineEnv "transcript" "en" None initialWorld
    = (Throw "Fact-checking failed: fetch failed", w') /\
    n_generateContent w' = 1%nat.
Proof.
  refine (proj2 (proj2 (factCheck_failures offlineEnv "transcript" "en" None initialWorld
                          quietM_None) _) "fetch failed" _); reflexivity.
Defined.

Lemma buildClaim_id env factCheckData claim index w c w' :
  buildClaim env factCheckData claim index w = (Ok c, w') ->
  Claim.id c = uuidv4 env (n_uuid w) /\ n_uuid w' = S (n_uuid w) /\
  get (Some claim) "timestamp" = Ok (Claim.timestamp c).
Proof.
  unfold buildClaim, liftR, generateId, mbind, M_bind, mret, M_ret. intros H.
  repeat match type of H with
         | (match ?x with _ => _ end) = _ => destruct x eqn:?; try discriminate H
         end.
  inversion H; subst; simpl. auto.
Qed.

Lemma mapM_buildClaim_ids env factCheckData items : forall i0 w claims w',
  mapM_index (buildClaim env factCheckData) items i0 w = (Ok claims, w') ->
  forall k c, claims !! k = Some c -> Claim.id c = uuidv4 env (n_uuid w + k).
Proof.
  induction items as [|x items IH]; simpl; intros i0 w claims w' H.
  - inversion H; subst. intros k c Hk. discriminate.
  - inv_bind H. inv_bind H. inversion H; subst.
    apply buildClaim_id in Hstep as (Hid & Hn & _).
    intros [|k] c Hk; simpl in Hk.
    + inversion Hk; subst. rewrite Nat.add_0_r. exact Hid.
    + rewrite (IH _ _ _ _ Hstep0 k c Hk), Hn. f_equal. lia.
Qed.

(** The claims of a report follow the extracted claims one to one and in
    order: as many claims as the extraction array has elements, the i-th
    with the text and the timestamp of the i-th extracted element, and with
    the i-th identifier drawn for this report; when the generator never
    repeats an identifier, no two claims share one. *)
Theorem report_follows_extraction env t l cb w r w'
  (Hrun : factCheckTranscription env t l cb w = (Ok r, w')) :
  exists items first_id,
    List.length (FactCheckResult.claims r) = List.length items /\
    Summary.totalClaims (FactCheckResult.summary r) = Z.of_nat (List.length items) /\
    (FactCheckResult.claims r <> [] ->
     exists extractionText, extractedClaimsOf env extractionText = JArr items) /\
    (forall i c, FactCheckResult.claims r !! i = Some c ->
       exists claim,
         items !! i = Some claim /\
         get (Some claim) "text" = Ok (Claim.text c) /\
         get (Some claim) "timestamp" = Ok (Claim.timestamp c) /\
         Claim.id c = uuidv4 env (first_id + i)) /\
    ((forall a b, uuidv4 env a = uuidv4 env b -> a = b) ->
     NoDup (List.map Claim.id (FactCheckResult.claims r))).
Proof.
  apply factCheck_ok_inv in Hrun.
  destruct Hrun as [-> | (et & ft & fcd & wa & wb & claims & Hdata & Hmap & ->)].
  - exists [], 0%nat. simpl. repeat split; try congruence; try discriminate.
    intros _. constructor.
  - destruct (extractedClaimsOf env et) as [| | | |items|] eqn:Hitems; try discriminate.
    cbn [js_map] in Hmap.
    destruct (mapM_index_inv _ _ _ _ _ _ Hmap) as [Hlen Hall].
    pose proof (mapM_buildClaim_ids _ _ _ _ _ _ _ Hmap) as Hids.
    exists items, (n_uuid wa). cbn [FactCheckResult.claims FactCheckResult.summary].
    split; [exact Hlen|]. split; [simpl; congruence|]. split; [eauto|]. split.
    + intros i c Hc. destruct (Hall i c Hc) as (claim & w1 & w2 & Hclaim & Hbuild).
      exists claim. split; [exact Hclaim|].
      pose proof (buildClaim_id _ _ _ _ _ _ _ Hbuild) as (_ & _ & Hts).
      apply buildClaim_inv in Hbuild as (? & ? & _ & Htext & _).
      split; [exact Htext|]. split; [exact Hts|]. apply Hids, Hc.
    + intros Hinj. apply NoDup_alt.
      intros i j x Hi Hj. rewrite list_lookup_fmap in Hi, Hj.
      destruct (claims !! i) as [ci|] eqn:Eci; [|discriminate].
      destruct (claims !! j) as [cj|] eqn:Ecj; [|discriminate].
      simpl in Hi, Hj. inversion Hi; inversion Hj; subst.
      rewrite (Hids i ci Eci), (Hids j cj Ecj) in H1.
      apply Hinj in H1. lia.
Qed.

Lemma report_follows_extraction_witness :
  exists r w' items first_id,
    factCheckTranscription fourClaimsEnv "transcript" "en" None initialWorld = (Ok r, w') /\
    List.length (FactCheckResult.claims r) = List.length items /\
    Summary.totalClaims (FactCheckResult.summary r) = Z.of_nat (List.length items) /\
    (forall i c, FactCheckResult.claims r !! i = Some c ->
       exists claim,
         items !! i = Some claim /\
         get (Some claim) "text" = Ok (Claim.text c) /\
         get (Some claim) "timestamp" = Ok (Claim.timestamp c) /\
         Claim.id c = uuidv4 fourClaimsEnv (first_id + i)).
Proof.
  destruct (factCheckTranscription fourClaimsEnv "transcript" "en" None initialWorld)
    as [[r|e] w'] eqn:E; [|vm_compute in E; discriminate E].
  destruct (report_follows_extraction fourClaimsEnv "transcript" "en" None initialWorld
              r w' E) as (items & first_id & H1 & H2 & _ & H3 & _).
  exists r, w', items, first_id. auto.
Defined.

(** ** What the services keep true of the job table *)

Lemma keeps_ret {A} P (a : A) : keeps P (mret a).
Proof. intros w r w' HP H. inversion H; subst. exact HP. Qed.

Lemma keeps_throw {A} P e : keeps P (@throw A e).
Proof. intros w r w' HP H. inversion H; subst. exact HP. Qed.

Lemma keeps_liftR {A} P (x : Result A) : keeps P (liftR x).
Proof. intros w r w' HP H. inversion H; subst. exact HP. Qed.

Lemma keeps_bind {A B} P (m : M A) (k : A -> M B) :
  keeps P m -> (forall a, keeps P (k a)) -> keeps P (m ≫= k).
Proof.
  intros Hm Hk w r w' HP H. unfold mbind, M_bind in H.
  destruct (m w) as [[a|e] w1] eqn:E.
  - exact (Hk a _ _ _ (Hm _ _ _ HP E) H).
  - inversion H; subst. exact (Hm _ _ _ HP E).
Qed.

Lemma keeps_attempt {A} P (m : M A) : keeps P m -> keeps P (attempt m).
Proof.
  intros Hm w r w' HP H. unfold attempt in H.
  destruct (m w) as [r1 w1] eqn:E. inversion H; subst. exact (Hm _ _ _ HP E).
Qed.

Lemma keeps_try_catch {A} P (m : M A) (h : Error -> M A) :
  keeps P m -> (forall e, keeps P (h e)) -> keeps P (try_catch m h).
Proof.
  intros Hm Hh w r w' HP H. unfold try_catch in H.
  destruct (m w) as [[a|e] w1] eqn:E.
  - inversion H; subst. exact (Hm _ _ _ HP E).
  - exact (Hh e _ _ _ (Hm _ _ _ HP E) H).
Qed.

Section KeepsJobs.
Context (env : Env) (P : World -> Prop).
Hypothesis P_jobs :
  forall w w', videoJobs w' = videoJobs w -> (n_uuid w <= n_uuid w')%nat -> P w -> P w'.

Lemma keeps_emit e : keeps P (emit e).
Proof.
  intros w r w' HP H. inversion H; subst.
  eapply P_jobs; [| |exact HP]; [reflexivity | cbn [n_uuid]; lia].
Qed.

Lemma keeps_sleep ms : keeps P (sleep ms).
Proof. apply keeps_emit. Qed.

Lemma keeps_generateContent : keeps P (generateContent env).
Proof.
  intros w r w' HP H. inversion H; subst.
  eapply P_jobs; [| |exact HP]; [reflexivity | cbn [n_uuid]; lia].
Qed.

Lemma keeps_uploadFile path : keeps P (uploadFile env path).
Proof.
  intros w r w' HP H. inversion H; subst.
  eapply P_jobs; [| |exact HP]; [reflexivity | cbn [n_uuid]; lia].
Qed.

Lemma keeps_getFile name : keeps P (getFile env name).
Proof.
  intros w r w' HP H. inversion H; subst.
  eapply P_jobs; [| |exact HP]; [reflexivity | cbn [n_uuid]; lia].
Qed.

Lemma keeps_generateId : keeps P (generateId env).
Proof.
  intros w r w' HP H. inversion H; subst.
  eapply P_jobs; [| |exact HP]; [reflexivity | cbn [n_uuid]; lia].
Qed.

Lemma keeps_callProgress cb p :
  (forall q, inRange q -> keeps P (callProgress cb q)) -> inRange p ->
  keeps P (callProgress cb p).
Proof. auto. Qed.

Lemma keeps_callProgress_None p : keeps P (callProgress None p).
Proof. apply keeps_ret. Qed.

Ltac keeps_step :=
  first
    [ apply keeps_ret | apply keeps_throw | apply keeps_liftR
    | apply keeps_generateContent | apply keeps_uploadFile | apply keeps_getFile
    | apply keeps_generateId | apply keeps_emit | apply keeps_sleep
    | apply keeps_callProgress_None
    | apply keeps_callProgress; [assumption | unfold inRange; lia]
    | apply keeps_attempt
    | apply keeps_bind; [|intros ?]
    | assumption ].

Ltac keeps_all := repeat keeps_step.

Lemma keeps_uploadLoop path maxRetries cb :
  (forall q, inRange q -> keeps P (callProgress cb q)) ->
  forall todo attempt_no lastError,
    (attempt_no + todo <= 50)%nat ->
    keeps P (uploadLoop env todo path maxRetries cb attempt_no lastError).
Proof.
  intros Hcb. induction todo as [|todo IH]; intros attempt_no lastError Hle;
    cbn [uploadLoop].
  - keeps_all.
  - apply keeps_bind; [keeps_all|]. intros [file|err]; [keeps_all|].
    apply keeps_bind; [|intros ?; apply IH; lia].
    destruct (Nat.ltb _ _); keeps_all.
Qed.

Lemma keeps_uploadWithRetry path cb :
  (forall q, inRange q -> keeps P (callProgress cb q)) ->
  keeps P (uploadWithRetry env path 3 cb).
Proof. intros Hcb. apply keeps_uploadLoop; [exact Hcb | lia]. Qed.

Lemma keeps_waitWhileProcessing cb :
  (forall q, inRange q -> keeps P (callProgress cb q)) ->
  forall todo waitCount file,
    keeps P (waitWhileProcessing env todo waitCount file cb).
Proof.
  intros Hcb. induction todo as [|todo IH]; intros waitCount file;
    cbn [waitWhileProcessing].
  - keeps_all.
  - destruct (decide _); [|keeps_all].
    apply keeps_bind; [keeps_all|intros _].
    apply keeps_bind; [keeps_all|intros r].
    apply keeps_bind; [|intros _; apply IH].
    apply keeps_callProgress; [exact Hcb | unfold inRange; lia].
Qed.

Lemma keeps_generateLoop attemptProgress pause cleanup fallback languageName cb :
  (forall q, inRange q -> keeps P (callProgress cb q)) ->
  (forall a, (a <= 3)%nat -> inRange (attemptProgress a)) ->
  keeps P cleanup ->
  forall todo attempt_no lastError,
    (attempt_no + todo <= 4)%nat ->
    keeps P (generateLoop env todo attempt_no attemptProgress pause cleanup fallback
                          languageName cb lastError).
Proof.
  intros Hcb Hrange Hclean. induction todo as [|todo IH];
    intros attempt_no lastError Hle; cbn [generateLoop].
  - keeps_all.
  - apply keeps_bind.
    + apply keeps_attempt. apply keeps_bind; [|intros _].
      * apply keeps_callProgress; [exact Hcb | apply Hrange; lia].
      * apply keeps_bind; [keeps_all|intros text].
        destruct (hasText env text); keeps_all.
    + intros [[result|]|err]; [keeps_all | apply IH; lia |].
      apply keeps_bind; [|intros ?; apply IH; lia].
      destruct (Nat.ltb _ _); keeps_all.
Qed.

Lemma keeps_splitLoop path T d : forall fuel start k chunks,
  keeps P (splitLoop env fuel path T d start k chunks).
Proof.
  induction fuel as [|fuel IH]; intros start k chunks; cbn [splitLoop];
    destruct (Qlt_bool start T); try keeps_all.
  apply IH.
Qed.

Lemma keeps_splitAudioIntoChunks path d : keeps P (splitAudioIntoChunks env path d).
Proof.
  unfold splitAudioIntoChunks. destruct (Qle_bool _ _); [keeps_all | apply keeps_splitLoop].
Qed.

Lemma keeps_transcribeChunk chunk acc : keeps P (transcribeChunk env chunk acc).
Proof.
  unfold transcribeChunk.
  apply keeps_bind; [apply keeps_uploadWithRetry; intros; apply keeps_callProgress_None|].
  intros uploaded.
  apply keeps_bind;
    [apply keeps_waitWhileProcessing; intros; apply keeps_callProgress_None|].
  intros file. destruct (decide _); [keeps_all|].
  unfold deleteFileQuietly. keeps_all.
Qed.

Lemma progressBase_range i total :
  (i < total)%nat ->
  50 <= 50 + Qfloor (inject_Z (Z.of_nat i) / inject_Z (Z.of_nat total) * 40) < 90.
Proof.
  intros Hi.
  assert (Ht : (0 < inject_Z (Z.of_nat total))%Q) by (rewrite <- (Zlt_Qlt 0); lia).
  assert (H0 : (0 <= inject_Z (Z.of_nat i) / inject_Z (Z.of_nat total))%Q).
  { apply Qle_shift_div_l; [exact Ht|]. rewrite Qmult_0_l, <- (Zle_Qle 0). lia. }
  assert (H1 : (inject_Z (Z.of_nat i) / inject_Z (Z.of_nat total) * 40 < 40)%Q).
  { assert (Hlt : (inject_Z (Z.of_nat i) / inject_Z (Z.of_nat total) < 1)%Q).
    { apply Qlt_shift_div_r; [exact Ht|]. rewrite Qmult_1_l, <- Zlt_Qlt. lia. }
    lra. }
  split.
  - assert (0 <= Qfloor (inject_Z (Z.of_nat i) / inject_Z (Z.of_nat total) * 40)); [|lia].
    change 0 with (Qfloor 0). apply Qfloor_resp_le. lra.
  - assert (Qfloor (inject_Z (Z.of_nat i) / inject_Z (Z.of_nat total) * 40) < 40); [|lia].
    rewrite Zlt_Qlt. eapply Qle_lt_trans; [apply Qfloor_le | exact H1].
Qed.

Lemma keeps_chunkLoop total cb :
  (forall q, inRange q -> keeps P (callProgress cb q)) ->
  forall todo i acc,
    (i + List.length todo <= total)%nat ->
    keeps P (chunkLoop env total todo i cb acc).
Proof.
  intros Hcb. induction todo as [|chunk rest IH]; intros i acc Hle; cbn [chunkLoop].
  - keeps_all.
  - cbn [List.length] in Hle.
    apply keeps_bind.
    + apply keeps_callProgress; [exact Hcb|].
      pose proof (progressBase_range i total ltac:(lia)). unfold inRange. lia.
    + intros _. apply keeps_bind; [apply keeps_attempt, keeps_transcribeChunk|].
      intros [[acc'|]|err].
      * apply keeps_bind; [keeps_all | intros _; apply IH; lia].
      * apply IH; lia.
      * apply keeps_bind; [keeps_all | intros _; apply IH; lia].
Qed.

Lemma keeps_transcribeAudio audioPath language cb :
  (forall q, inRange q -> keeps P (callProgress cb q)) ->
  keeps P (transcribeAudio env audioPath language cb).
Proof.
  intros Hcb. unfold transcribeAudio.
  destruct (String.eqb _ _); [keeps_all|].
  apply keeps_bind; [keeps_all|intros _].
  destruct (statSize env audioPath) as [size|]; [|keeps_all].
  destruct (Qlt_bool _ _).
  - apply keeps_bind; [keeps_all|intros _]. unfold transcribeWithChunking.
    apply keeps_bind; [keeps_all|intros _].
    apply keeps_bind; [apply keeps_splitAudioIntoChunks|intros chunks].
    destruct (Nat.eqb _ _); [keeps_all|].
    apply keeps_bind; [apply keeps_chunkLoop; [exact Hcb | lia]|intros ts].
    destruct (Nat.eqb _ _); keeps_all.
  - apply keeps_bind; [keeps_all|intros _].
    destruct (Z.ltb _ _).
    + unfold transcribeWithFileAPI.
      apply keeps_bind; [keeps_all|intros _].
      apply keeps_bind; [apply keeps_uploadWithRetry, Hcb|intros uploaded].
      apply keeps_bind; [keeps_all|intros _].
      apply keeps_bind; [apply keeps_waitWhileProcessing, Hcb|intros file].
      destruct (decide _); [keeps_all|].
      apply keeps_bind; [keeps_all|intros _].
      apply keeps_generateLoop; [exact Hcb | | | lia].
      * intros a Ha. unfold inRange. lia.
      * unfold deleteFileQuietly. keeps_all.
    + unfold transcribeWithInlineData.
      apply keeps_bind; [keeps_all|intros _].
      apply keeps_bind; [keeps_all|intros _].
      apply keeps_generateLoop; [exact Hcb | | keeps_all | lia].
      intros a Ha. unfold inRange. lia.
Qed.

Lemma keeps_downloadVideo url videoId cb :
  (forall q, inRange q -> keeps P (callProgress cb q)) ->
  keeps P (downloadVideo env url videoId cb).
Proof.
  intros Hcb. unfold downloadVideo.
  apply keeps_bind; [keeps_all|intros _].
  apply keeps_try_catch; [|intros e; keeps_all].
  apply keeps_bind; [keeps_all|intros _].
  apply keeps_bind; [keeps_all|intros info].
  apply keeps_bind; [keeps_all|intros _].
  apply keeps_bind.
  - destruct (ytdlp_mp3 env); keeps_all.
  - intros audioPath. apply keeps_bind; [keeps_all|intros _].
    destruct audioPath; keeps_all.
Qed.

Lemma keeps_mapM_index {A B} (f : A -> nat -> M B) items :
  (forall x i, keeps P (f x i)) -> forall i0, keeps P (mapM_index f items i0).
Proof.
  intros Hf. induction items as [|x items IH]; intros i0; cbn [mapM_index].
  - keeps_all.
  - apply keeps_bind; [apply Hf|intros y].
    apply keeps_bind; [apply IH|intros ys]. keeps_all.
Qed.

Lemma keeps_factCheckTranscription t l cb :
  (forall q, inRange q -> keeps P (callProgress cb q)) ->
  keeps P (factCheckTranscription env t l cb).
Proof.
  intros Hcb. unfold factCheckTranscription.
  destruct (String.eqb _ _); [keeps_all|].
  apply keeps_bind; [keeps_all|intros _].
  apply keeps_try_catch; [|intros e; keeps_all].
  apply keeps_bind; [keeps_all|intros et].
  apply keeps_bind; [keeps_all|intros len].
  destruct (strict_eq_num _ _); [keeps_all|].
  apply keeps_bind; [keeps_all|intros _].
  apply keeps_bind; [keeps_all|intros ft].
  apply keeps_bind; [keeps_all|intros fcd].
  apply keeps_bind; [keeps_all|intros _].
  apply keeps_bind.
  - unfold js_map. destruct (extractedClaimsOf env et); try keeps_all.
    apply keeps_mapM_index. intros x i. unfold buildClaim. keeps_all.
  - intros claims. keeps_all.
Qed.

End KeepsJobs.

Section TaskKeeps.
Context (env : Env) (P : World -> Prop) (videoId : string).
Context (G : (VideoData.t -> VideoData.t) -> Prop).
Hypothesis P_jobs :
  forall w w', videoJobs w' = videoJobs w -> (n_uuid w <= n_uuid w')%nat -> P w -> P w'.
Hypothesis P_write : forall f, G f -> keeps P (writeJob videoId f).
Hypothesis P_modify : forall f, G f -> keeps P (modifyJob videoId f).
Hypothesis G_progress :
  forall status p, status <> error -> inRange p -> G (setProgress status p).
Hypothesis G_report :
  forall p, inRange p -> G (fun job => setProgress (VideoData.status job) p job).
Hypothesis G_download : forall d, G (setDownload d).
Hypothesis G_transcribed :
  forall t, G (fun job => setProgress completed 70 (setTranscription t job)).
Hypothesis G_analyzed :
  forall r, G (fun job => setProgress completed 100 (setResult r job)).
Hypothesis G_error : forall e, G (setError e).

Lemma keeps_processVideoAsync url language :
  keeps P (processVideoAsync env videoId url language).
Proof.
  unfold processVideoAsync.
  assert (Hcb : forall status, status <> error ->
            forall q, inRange q ->
              keeps P (callProgress
                         (Some (fun progress => writeJob videoId (setProgress status progress)))
                         q)).
  { intros status Hst q Hq. apply P_write, G_progress; assumption. }
  apply keeps_bind.
  - apply keeps_attempt.
    apply keeps_bind; [apply P_write, G_progress; [discriminate | unfold inRange; lia]|].
    intros _. apply keeps_bind;
      [apply keeps_downloadVideo, Hcb; discriminate|].
    intros d. apply keeps_bind; [apply P_modify, G_download|]. intros _.
    apply keeps_bind; [apply P_write, G_progress; [discriminate | unfold inRange; lia]|].
    intros _. apply keeps_bind;
      [apply keeps_transcribeAudio; [exact P_jobs | apply Hcb; discriminate]|].
    intros res. apply P_write, G_transcribed.
  - intros [u|e]; [apply keeps_ret | apply P_write, G_error].
Qed.

Lemma keeps_analyzeVideoAsync transcription language :
  keeps P (analyzeVideoAsync env videoId transcription language).
Proof.
  unfold analyzeVideoAsync. intros w r w' HP H.
  unfold getWorld in H. unfold mbind at 1, M_bind at 1 in H.
  destruct (videoJobs w !! videoId); [|inversion H; subst; exact HP].
  revert w r w' HP H. apply keeps_bind.
  - apply keeps_attempt. apply keeps_bind.
    + apply keeps_factCheckTranscription; [exact P_jobs|].
      intros q Hq. apply P_write, G_report, Hq.
    + intros res. apply P_write, G_analyzed.
  - intros [u|e]; [apply keeps_ret | apply P_write, G_error].
Qed.

End TaskKeeps.

Lemma jobInv_setProgress key status p job :
  status <> error -> inRange p -> jobInv key job -> jobInv key (setProgress status p job).
Proof.
  intros Hst Hp (Hid & _ & _ & Hcs). unfold jobInv; simpl.
  split; [exact Hid|]. split; [exact Hp|]. split; [contradiction | exact Hcs].
Qed.

Lemma jobInv_report key p job :
  inRange p -> jobInv key job ->
  jobInv key (setProgress (VideoData.status job) p job).
Proof.
  intros Hp (Hid & _ & Herr & Hcs). unfold jobInv; simpl. auto.
Qed.

Lemma jobInv_setDownload key d job : jobInv key job -> jobInv key (setDownload d job).
Proof. intros (Hid & Hp & Herr & Hcs). unfold jobInv; simpl. auto. Qed.

Lemma jobInv_transcribed key t job :
  jobInv key job -> jobInv key (setProgress completed 70 (setTranscription t job)).
Proof.
  intros (Hid & _ & _ & Hcs). unfold jobInv, inRange; simpl.
  split; [exact Hid|]. split; [lia|]. split; [discriminate | exact Hcs].
Qed.

Lemma jobInv_analyzed key r job :
  jobInv key job -> jobInv key (setProgress completed 100 (setResult r job)).
Proof.
  intros (Hid & _ & _ & _). unfold jobInv, inRange; simpl.
  split; [exact Hid|]. split; [lia|]. split; [discriminate|]. split; eauto.
Qed.

Lemma jobInv_setError key e job : jobInv key job -> jobInv key (setError e job).
Proof.
  intros (Hid & Hp & _ & Hcs). unfold jobInv; simpl.
  split; [exact Hid|]. split; [exact Hp|]. split; [eauto | exact Hcs].
Qed.

Lemma tableInv_insert jobs key job :
  tableInv jobs -> jobInv key job -> tableInv (<[key := job]> jobs).
Proof.
  intros Ht Hj k j Hk. destruct (decide (k = key)) as [->|Hne].
  - rewrite lookup_insert_eq in Hk. inversion Hk; subst. exact Hj.
  - rewrite lookup_insert_ne in Hk by congruence. exact (Ht k j Hk).
Qed.

Lemma keeps_tableInv_writeJob videoId f :
  (forall job, jobInv videoId job -> jobInv videoId (f job)) ->
  keeps (fun w => tableInv (videoJobs w)) (writeJob videoId f).
Proof.
  intros Hf w r w' HP H. unfold writeJob, getWorld, mbind, M_bind in H.
  destruct (videoJobs w !! videoId) as [job|] eqn:Hjob; inversion H; subst; simpl;
    [|exact HP].
  apply tableInv_insert; [exact HP | apply Hf, (HP _ _ Hjob)].
Qed.

Lemma keeps_tableInv_modifyJob videoId f :
  (forall job, jobInv videoId job -> jobInv videoId (f job)) ->
  keeps (fun w => tableInv (videoJobs w)) (modifyJob videoId f).
Proof.
  intros Hf w r w' HP H. unfold modifyJob, getWorld, mbind, M_bind in H.
  destruct (videoJobs w !! videoId) as [job|] eqn:Hjob; inversion H; subst; simpl;
    [|exact HP].
  apply tableInv_insert; [exact HP | apply Hf, (HP _ _ Hjob)].
Qed.

Lemma keeps_tableInv_runTask env task :
  keeps (fun w => tableInv (videoJobs w)) (runTask env task).
Proof.
  destruct task as [videoId url language | videoId transcription language];
    cbn [runTask];
    [ apply (keeps_processVideoAsync env _ videoId
               (fun f => forall job, jobInv videoId job -> jobInv videoId (f job)))
    | apply (keeps_analyzeVideoAsync env _ videoId
               (fun f => forall job, jobInv videoId job -> jobInv videoId (f job))) ];
    try (intros w w' Hw _ HP; rewrite Hw; exact HP);
    try (intros f Hf; first [apply keeps_tableInv_writeJob | apply keeps_tableInv_modifyJob];
         exact Hf);
    intros; first
      [ apply jobInv_setProgress; assumption
      | apply jobInv_report; assumption
      | apply jobInv_setDownload; assumption
      | apply jobInv_transcribed; assumption
      | apply jobInv_analyzed; assumption
      | apply jobInv_setError; assumption ].
Qed.

(** Every stored job of every reachable world is stored under its own id,
    has a progress between 0 and 100, has an error message when its status
    is [error], and has its claims exactly when it has its score. *)
Theorem reachable_table_invariant env w
  (Hreach : reachable env w) :
  tableInv (videoJobs w).
Proof.
  induction Hreach as [|w w' _ IH Hstep].
  - intros key job Hk. cbn in Hk. rewrite lookup_empty in Hk. discriminate.
  - destruct Hstep as [url language w r w' H | id w r w' H | id w r w' H
                      | id w r w' H | id w r w' H | task w r w' H].
    + unfold processVideo in H.
      destruct (nonEmpty url); [|inversion H; subst; exact IH].
      destruct (nonEmpty language); [|inversion H; subst; exact IH].
      destruct (negb _); [inversion H; subst; exact IH|].
      destruct (findLanguage _); [|inversion H; subst; exact IH].
      inversion H; subst; simpl. apply tableInv_insert; [exact IH|].
      unfold jobInv, inRange; simpl.
      split; [reflexivity|]. split; [lia|]. split; [discriminate|].
      split; intros [x Hx]; discriminate.
    + unfold getVideoStatus, getWorld, mbind, M_bind in H.
      destruct (videoJobs w !! id); inversion H; subst; exact IH.
    + unfold analyzeVideo, getWorld in H. unfold mbind at 1, M_bind at 1 in H.
      destruct (videoJobs w !! id) as [job|] eqn:Hjob; [|inversion H; subst; exact IH].
      destruct (nonEmpty _); [|inversion H; subst; exact IH].
      destruct (decide _); [inversion H; subst; exact IH|].
      unfold mbind, M_bind in H.
      destruct (writeJob id (setProgress analyzing 75) w) as [[u|e] w1] eqn:Hw;
        inversion H; subst;
        refine (keeps_tableInv_writeJob id _ _ _ _ _ IH Hw);
        intros j Hj;
        (apply jobInv_setProgress; [discriminate | unfold inRange; lia | exact Hj]).
    + unfold getVideoResults, getWorld, mbind, M_bind in H.
      destruct (videoJobs w !! id) as [job|]; [|inversion H; subst; exact IH].
      destruct (VideoData.claims job), (VideoData.overallScore job);
        inversion H; subst; exact IH.
    + unfold deleteVideo, getWorld, mbind, M_bind in H.
      destruct (videoJobs w !! id); inversion H; subst; [|exact IH].
      simpl. intros key job Hk.
      destruct (decide (key = id)) as [->|Hne].
      * rewrite lookup_delete_eq in Hk. discriminate.
      * rewrite lookup_delete_ne in Hk by congruence. exact (IH key job Hk).
    + exact (keeps_tableInv_runTask env task w r w' IH H).
Qed.

Lemma reachable_table_invariant_witness :
  tableInv (videoJobs (runJob longAudioEnv "https://www.youtube.com/watch" "en")).
Proof.
  apply (reachable_table_invariant longAudioEnv).
  unfold runJob.
  destruct (processVideo longAudioEnv (Some "https://www.youtube.com/watch") (Some "en")
              initialWorld) as [r w1] eqn:E1.
  assert (R1 : reachable longAudioEnv w1)
    by (eapply reachable_step; [apply reachable_initial | eapply step_processVideo, E1]).
  destruct r as [[resp [task|]]|e]; try exact R1.
  destruct (runTask longAudioEnv task w1) as [r2 w2] eqn:E2. simpl.
  eapply reachable_step; [exact R1 | eapply step_runTask, E2].
Defined.

(** ** Background tasks *)

Lemma writeJob_inv videoId f w r w' :
  writeJob videoId f w = (r, w') ->
  r = Ok tt /\
  ((exists job, videoJobs w !! videoId = Some job /\
                videoJobs w' = <[videoId := f job]> (videoJobs w)) \/
   (videoJobs w !! videoId = None /\ w' = w)).
Proof.
  unfold writeJob, getWorld, mbind, M_bind. intros H.
  destruct (videoJobs w !! videoId) as [job|] eqn:Hjob; inversion H; subst.
  - split; [reflexivity|]. left. exists job. auto.
  - split; [reflexivity|]. right. auto.
Qed.

Lemma modifyJob_inv videoId f w r w' :
  modifyJob videoId f w = (r, w') ->
  r = Ok tt /\
  ((exists job, videoJobs w !! videoId = Some job /\
                videoJobs w' = <[videoId := f job]> (videoJobs w)) \/
   (videoJobs w !! videoId = None /\ videoJobs w' = videoJobs w)).
Proof.
  unfold modifyJob, getWorld, mbind, M_bind. intros H.
  destruct (videoJobs w !! videoId) as [job|] eqn:Hjob; inversion H; subst.
  - split; [reflexivity|]. left. exists job. auto.
  - split; [reflexivity|]. right. auto.
Qed.

(** A background task touches no job but its own; when its job has been
    deleted in the meantime it leaves the whole table as it is. *)
Theorem runTask_isolation env task w r w'
  (Hrun : runTask env task w = (r, w')) :
  (forall id, id <> taskId task -> videoJobs w' !! id = videoJobs w !! id) /\
  (videoJobs w !! taskId task = None -> videoJobs w' = videoJobs w).
Proof.
  assert (Hgen : forall (P : World -> Prop),
            (forall w1 w2, videoJobs w2 = videoJobs w1 -> (n_uuid w1 <= n_uuid w2)%nat ->
                           P w1 -> P w2) ->
            (forall f, keeps P (writeJob (taskId task) f)) ->
            (forall f, keeps P (modifyJob (taskId task) f)) ->
            P w -> P w').
  { intros P HPj HPw HPm HP.
    destruct task as [videoId url language | videoId transcription language];
      cbn [runTask taskId] in *.
    - refine (keeps_processVideoAsync env P videoId (fun _ => True) HPj _ _ _ _ _ _
                url language w r w' HP Hrun); auto.
    - refine (keeps_analyzeVideoAsync env P videoId (fun _ => True) HPj _ _ _ _
                transcription language w r w' HP Hrun); auto. }
  split.
  - intros id Hne.
    apply (Hgen (fun w0 => videoJobs w0 !! id = videoJobs w !! id)).
    + intros w1 w2 Heq _. rewrite Heq. auto.
    + intros f w1 r1 w2 HP H. apply writeJob_inv in H as [_ [(job & _ & ->) | [_ ->]]];
        [rewrite lookup_insert_ne by congruence|]; exact HP.
    + intros f w1 r1 w2 HP H. apply modifyJob_inv in H as [_ [(job & _ & ->) | [_ ->]]];
        [rewrite lookup_insert_ne by congruence|]; exact HP.
    + reflexivity.
  - intros Habsent.
    apply (Hgen (fun w0 => videoJobs w0 = videoJobs w)).
    + intros w1 w2 Heq _. rewrite Heq. auto.
    + intros f w1 r1 w2 HP H. apply writeJob_inv in H as [_ [(job & Hj & _) | [_ ->]]];
        [rewrite HP, Habsent in Hj; discriminate | exact HP].
    + intros f w1 r1 w2 HP H. apply modifyJob_inv in H as [_ [(job & Hj & _) | [_ ->]]];
        [rewrite HP, Habsent in Hj; discriminate | exact HP].
    + reflexivity.
Qed.

Lemma runTask_isolation_witness :
  videoJobs (snd (runTask longAudioEnv (TaskProcess "job-5" "https://youtu.be/x" "en")
                    transcribedWorld))
  = videoJobs transcribedWorld.
Proof.
  destruct (runTask longAudioEnv (TaskProcess "job-5" "https://youtu.be/x" "en")
              transcribedWorld) as [r w'] eqn:E.
  apply (proj2 (runTask_isolation _ _ _ _ _ E)). vm_compute. reflexivity.
Defined.

Lemma hasText_trim env text : hasText env text = true -> trim env text <> EmptyString.
Proof.
  unfold hasText. intros H. apply andb_true_iff in H as [_ H].
  apply Bool.negb_true_iff in H. intros E. rewrite E in H. discriminate.
Qed.

Lemma generateLoop_ok_nonempty env attemptProgress pause cleanup fallback languageName cb :
  forall todo attempt_no lastError w result w',
    generateLoop env todo attempt_no attemptProgress pause cleanup fallback
                 languageName cb lastError w = (Ok result, w') ->
    TranscriptionResult.transcription result <> EmptyString.
Proof.
  induction todo as [|todo IH]; intros attempt_no lastError w result w' H;
    cbn [generateLoop] in H; [discriminate|].
  inv_bind H. unfold attempt in Hstep.
  match type of Hstep with (let (_, _) := ?m w in _) = _ =>
    destruct (m w) as [r1 w1] eqn:Hbody end.
  inversion Hstep; subst a w0. clear Hstep.
  destruct r1 as [[found|]|err].
  - inversion H; subst found w1.
    inv_bind Hbody. inv_bind Hbody.
    destruct (hasText env a0) eqn:Htext.
    + inv_bind Hbody. inv_bind Hbody. inversion Hbody; subst. simpl.
      apply hasText_trim, Htext.
    + inversion Hbody.
  - eapply IH, H.
  - inv_bind H. eapply IH, H.
Qed.

Lemma chunkLoop_ok_nonempty env total cb :
  forall todo i acc w ts w',
    chunkLoop env total todo i cb acc w = (Ok ts, w') ->
    Forall (fun x => x <> EmptyString) acc ->
    ts <> [] -> Forall (fun x => x <> EmptyString) ts.
Proof.
  induction todo as [|chunk rest IH]; intros i acc w ts w' H Hacc Hne;
    cbn [chunkLoop] in H.
  - inversion H; subst. exact Hacc.
  - inv_bind H. inv_bind H.
    destruct (transcribeChunk_outcome env chunk acc w0) as (res & w2 & Hres & Hcase).
    rewrite Hres in Hstep0. inversion Hstep0; subst a0 w1. clear Hstep0.
    destruct Hcase as [[_ [-> | [e ->]]] | [_ Hcase]].
    + eapply IH; eauto.
    + inv_bind H. eapply IH; eauto.
    + destruct (generateContent_out env (n_generateContent w0)) as [text|e]; subst res.
      * inv_bind H. eapply IH; [exact H | | exact Hne].
        destruct (hasText env text); [|exact Hacc].
        apply Forall_app. split; [exact Hacc|]. constructor; [|constructor].
        unfold renderChunk, chunkHeader, newline. discriminate.
      * inv_bind H. eapply IH; eauto.
Qed.

Lemma concat_nonempty sep x rest :
  x <> EmptyString -> String.concat sep (x :: rest) <> EmptyString.
Proof.
  intros Hx. destruct x as [|c x]; [congruence|].
  destruct rest; simpl; discriminate.
Qed.

(** A transcript handed back by [transcribeAudio] is never empty. *)
Lemma transcribeAudio_ok_nonempty env audioPath language cb w result w' :
  transcribeAudio env audioPath language cb w = (Ok result, w') ->
  TranscriptionResult.transcription result <> EmptyString.
Proof.
  unfold transcribeAudio. intros H.
  destruct (String.eqb _ _); [discriminate|].
  inv_bind H. destruct (statSize env audioPath) as [size|]; [|discriminate].
  destruct (Qlt_bool _ _).
  - inv_bind H. unfold transcribeWithChunking in H.
    inv_bind H. inv_bind H.
    destruct (Nat.eqb (List.length a2) 0); [discriminate|].
    inv_bind H.
    destruct a3 as [|t ts]; [discriminate|]. cbn [List.length Nat.eqb] in H.
    inv_bind H. inv_bind H. inversion H; subst. simpl.
    apply concat_nonempty.
    apply chunkLoop_ok_nonempty in Hstep3; [|constructor|discriminate].
    inversion Hstep3; assumption.
  - inv_bind H. destruct (Z.ltb _ _).
    + unfold transcribeWithFileAPI in H.
      inv_bind H. inv_bind H. inv_bind H. inv_bind H.
      destruct (decide _); [discriminate|].
      inv_bind H. eapply generateLoop_ok_nonempty, H.
    + unfold transcribeWithInlineData in H.
      inv_bind H. inv_bind H. eapply generateLoop_ok_nonempty, H.
Qed.

Lemma keeps_present_writeJob videoId f :
  keeps (fun w => is_Some (videoJobs w !! videoId)) (writeJob videoId f).
Proof.
  intros w r w' HP H. apply writeJob_inv in H as [_ [(job & _ & ->) | [_ ->]]];
    [rewrite lookup_insert_eq; eauto | exact HP].
Qed.

Lemma keeps_present_modifyJob videoId f :
  keeps (fun w => is_Some (videoJobs w !! videoId)) (modifyJob videoId f).
Proof.
  intros w r w' HP H. apply modifyJob_inv in H as [_ [(job & _ & ->) | [_ Heq]]];
    [rewrite lookup_insert_eq; eauto | rewrite Heq; exact HP].
Qed.

(** The download-and-transcribe task never throws and never leaves its job
    half way: when the job is in the table, the task ends with the job
    either [completed] at progress 70 with a transcript that is not empty
    (so that a request for analysis is accepted at once), or in [error]
    with the message of the failure. *)
Theorem processVideoAsync_outcome env videoId url language w job
  (Hjob : videoJobs w !! videoId = Some job) :
  exists w' job',
    processVideoAsync env videoId url language w = (Ok tt, w') /\
    videoJobs w' !! videoId = Some job' /\
    ((VideoData.status job' = completed /\
      VideoData.progress job' = 70 /\
      (exists t, VideoData.transcription job' = Some t /\ t <> EmptyString /\
                 exists w'',
                   analyzeVideo videoId w'
                   = (Ok (mkResponse 200 (BodyAnalysisStarted (VideoData.id job')),
                          Some (TaskAnalyze videoId t (VideoData.language job'))), w''))) \/
     (VideoData.status job' = error /\ exists e, VideoData.error job' = Some e)).
Proof.
  unfold processVideoAsync.
  set (body := (writeJob videoId (setProgress downloading 5) ≫= _)).
  destruct (body w) as [rb wb] eqn:Hbody.
  unfold mbind at 1, M_bind at 1, attempt. rewrite Hbody.
  assert (Hpresent : is_Some (videoJobs wb !! videoId)).
  { assert (Hb : keeps (fun w => is_Some (videoJobs w !! videoId)) body).
    { subst body.
      assert (Hcb : forall status q,
                keeps (fun w => is_Some (videoJobs w !! videoId))
                  (callProgress
                     (Some (fun progress => writeJob videoId (setProgress status progress)))
                     q)) by (intros; apply keeps_present_writeJob).
      apply keeps_bind; [apply keeps_present_writeJob|intros _].
      apply keeps_bind; [apply keeps_downloadVideo; intros; apply Hcb|intros d].
      apply keeps_bind; [apply keeps_present_modifyJob|intros _].
      apply keeps_bind; [apply keeps_present_writeJob|intros _].
      apply keeps_bind; [|intros res; apply keeps_present_writeJob].
      apply keeps_transcribeAudio; [|intros; apply Hcb].
      intros w1 w2 Heq _. rewrite Heq. auto. }
    eapply Hb; [|exact Hbody]. rewrite Hjob. eauto. }
  destruct rb as [[]|e].
  - subst body. inv_bind Hbody. inv_bind Hbody. inv_bind Hbody. inv_bind Hbody.
    inv_bind Hbody.
    apply transcribeAudio_ok_nonempty in Hstep3.
    apply writeJob_inv in Hbody as [_ [(job0 & Hjob0 & Hjobs) | [Habs ->]]];
      [|rewrite Habs in Hpresent; destruct Hpresent; discriminate].
    eexists wb, _. split; [reflexivity|].
    split; [rewrite Hjobs; apply lookup_insert_eq|].
    left. split; [reflexivity|]. split; [reflexivity|].
    eexists. split; [reflexivity|]. split; [exact Hstep3|].
    unfold analyzeVideo, getWorld. unfold mbind at 1, M_bind at 1.
    rewrite Hjobs, lookup_insert_eq. cbn [setProgress setTranscription VideoData.transcription
      VideoData.status VideoData.id VideoData.language].
    destruct (TranscriptionResult.transcription a3) as [|c t] eqn:Ht; [congruence|].
    cbn [nonEmpty]. destruct (decide (completed = analyzing)); [discriminate|].
    match goal with |- context [writeJob videoId ?f ≫= _] =>
      destruct (writeJob_present videoId f wb _ (eq_trans (f_equal (fun m => m !! videoId) Hjobs)
                                                  (lookup_insert_eq _ _ _)))
        as (w'' & Hw & _) end.
    exists w''. rewrite (bind_ok_run _ _ _ _ _ Hw). reflexivity.
  - destruct Hpresent as [jobb Hjobb].
    destruct (writeJob_present videoId (setError e) wb jobb Hjobb) as (w' & Hw & Hjobs & _).
    exists w', (setError e jobb). split; [exact Hw|].
    split; [rewrite Hjobs; apply lookup_insert_eq|].
    right. split; [reflexivity|]. simpl. eauto.
Qed.

Lemma processVideoAsync_outcome_witness :
  exists w' job',
    processVideoAsync shortAudioEnv "job-0" "https://www.youtube.com/watch" "en"
                      transcribedWorld = (Ok tt, w') /\
    videoJobs w' !! "job-0" = Some job' /\
    VideoData.status job' = completed /\
    VideoData.transcription job' = Some "hello".
Proof.
  destruct (processVideoAsync_outcome shortAudioEnv "job-0" "https://www.youtube.com/watch"
              "en" transcribedWorld (transcribedJob analyzing 75) eq_refl)
    as (w' & job' & Hrun & Hjob' & _).
  exists w', job'. split; [exact Hrun|]. split; [exact Hjob'|].
  vm_compute in Hrun. inversion Hrun; subst w'.
  vm_compute in Hjob'. inversion Hjob'. split; reflexivity.
Defined.

(** The analysis task never throws. When its job is in the table it ends
    with the job either [completed] at progress 100, holding its claims
    and a score between 0 and 100 computed from them (the results request
    then answers 200 with the summary of these claims), or in [error] with
    the message of the failure; the transcript is kept in both cases. When
    the job is gone the task does nothing at all. *)
Theorem analyzeVideoAsync_outcome env videoId transcription language w :
  (forall job, videoJobs w !! videoId = Some job ->
   exists w' job',
     analyzeVideoAsync env videoId transcription language w = (Ok tt, w') /\
     videoJobs w' !! videoId = Some job' /\
     VideoData.transcription job' = VideoData.transcription job /\
     ((VideoData.status job' = completed /\
       VideoData.progress job' = 100 /\
       exists claims,
         VideoData.claims job' = Some claims /\
         VideoData.overallScore job' = Some (computeOverallScore (summarize claims)) /\
         0 <= computeOverallScore (summarize claims) <= 100 /\
         getVideoResults videoId w'
         = (Ok (mkResponse 200 (BodyResults job' (summarize claims))), w')) \/
      (VideoData.status job' = error /\ exists e, VideoData.error job' = Some e))) /\
  (videoJobs w !! videoId = None ->
   analyzeVideoAsync env videoId transcription language w = (Ok tt, w)).
Proof.
  split; [|intros Habs; unfold analyzeVideoAsync, getWorld, mbind, M_bind;
           rewrite Habs; reflexivity].
  intros job Hjob. unfold analyzeVideoAsync, getWorld.
  unfold mbind at 1, M_bind at 1. rewrite Hjob.
  set (cb := Some (fun progress : Z =>
                writeJob videoId (fun job => setProgress (VideoData.status job) progress job))).
  set (P := fun w0 : World =>
              exists j, videoJobs w0 !! videoId = Some j /\
                        VideoData.transcription j = VideoData.transcription job).
  assert (HPw : forall f,
            (forall j, VideoData.transcription (f j) = VideoData.transcription j) ->
            forall w0, P w0 -> exists w1 j1,
              writeJob videoId f w0 = (Ok tt, w1) /\
              videoJobs w1 !! videoId = Some (f j1) /\
              VideoData.transcription j1 = VideoData.transcription job /\
              videoJobs w0 !! videoId = Some j1).
  { intros f Hf w0 (j & Hj & Ht).
    destruct (writeJob_present videoId f w0 j Hj) as (w1 & Hw & Hjobs & _).
    exists w1, j. split; [exact Hw|]. split; [rewrite Hjobs; apply lookup_insert_eq|]. auto. }
  assert (Hk : keeps P (factCheckTranscription env transcription language cb)).
  { apply keeps_factCheckTranscription.
    - intros w1 w2 Heq. unfold P. rewrite Heq. auto.
    - intros q _ w0 r w1 HP0 H. subst cb. cbn [callProgress] in H.
      destruct (HPw (fun job => setProgress (VideoData.status job) q job)
                  ltac:(reflexivity) w0 HP0) as (w1' & j1 & Hw & Hj1 & Ht & _).
      rewrite Hw in H. inversion H; subst. exists (setProgress (VideoData.status j1) q j1).
      split; [exact Hj1 | exact Ht]. }
  destruct (factCheckTranscription env transcription language cb w) as [rf wf] eqn:Hrun.
  assert (HPf : P wf) by (eapply Hk; [|exact Hrun]; exists job; auto).
  unfold attempt. unfold mbind at 1, M_bind at 1. unfold mbind at 1, M_bind at 1.
  rewrite Hrun. destruct rf as [res|e].
  - destruct (HPw (fun job => setProgress completed 100 (setResult res job))
                ltac:(reflexivity) wf HPf) as (w1 & j1 & Hw & Hj1 & Ht & _).
    rewrite Hw. eexists w1, _. split; [reflexivity|]. split; [exact Hj1|].
    split; [exact Ht|]. left. split; [reflexivity|]. split; [reflexivity|].
    destruct (factCheck_score_of_claims _ _ _ _ _ _ _ Hrun) as [Hsum Hscore].
    exists (FactCheckResult.claims res). split; [reflexivity|].
    split; [simpl; rewrite Hscore, Hsum; reflexivity|].
    split; [apply computeOverallScore_bounds|].
    unfold getVideoResults, getWorld, mbind, M_bind. rewrite Hj1. reflexivity.
  - destruct (HPw (setError e) ltac:(reflexivity) wf HPf) as (w1 & j1 & Hw & Hj1 & Ht & _).
    eexists w1, _. split; [exact Hw|]. split; [exact Hj1|]. split; [exact Ht|].
    right. split; [reflexivity|]. simpl. eauto.
Qed.

Lemma analyzeVideoAsync_outcome_witness :
  exists w' job',
    analyzeVideoAsync fourClaimsEnv "job-0" "transcript" "en" transcribedWorld = (Ok tt, w') /\
    videoJobs w' !! "job-0" = Some job' /\
    VideoData.transcription job' = Some "transcript" /\
    VideoData.status job' = completed /\
    VideoData.overallScore job' = Some 63.
Proof.
  destruct (proj1 (analyzeVideoAsync_outcome fourClaimsEnv "job-0" "transcript" "en"
                     transcribedWorld) (transcribedJob analyzing 75) eq_refl)
    as (w' & job' & Hrun & Hjob' & Ht & _).
  exists w', job'. split; [exact Hrun|]. split; [exact Hjob'|]. split; [exact Ht|].
  vm_compute in Hrun. inversion Hrun; subst w'.
  vm_compute in Hjob'. inversion Hjob'. split; reflexivity.
Defined.

(** ** Requests in sequence *)

(** An accepted analysis request blocks the next one: asked again before
    the task has ended, the handler answers 400 "Analysis already in
    progress", starts no second task and changes nothing. The task it
    started carries the job's own transcript and language. *)
Theorem analyzeVideo_once id w response task w1
  (Hfirst : analyzeVideo id w = (Ok (response, Some task), w1)) :
  analyzeVideo id w1
  = (Ok (mkResponse 400 (BodyError "Analysis already in progress"), None), w1) /\
  exists job t,
    videoJobs w !! id = Some job /\
    VideoData.transcription job = Some t /\ t <> EmptyString /\
    task = TaskAnalyze id t (VideoData.language job) /\
    videoJobs w1 !! id = Some (setProgress analyzing 75 job).
Proof.
  unfold analyzeVideo, getWorld in Hfirst. unfold mbind at 1, M_bind at 1 in Hfirst.
  destruct (videoJobs w !! id) as [job|] eqn:Hjob; [|discriminate].
  destruct (nonEmpty (VideoData.transcription job)) as [t|] eqn:Ht; [|discriminate].
  destruct (decide _); [discriminate|].
  destruct (writeJob_present id (setProgress analyzing 75) w job Hjob)
    as (w' & Hw & Hjobs & _).
  rewrite (bind_ok_run _ _ _ _ _ Hw) in Hfirst. inversion Hfirst; subst.
  assert (Hjob1 : videoJobs w1 !! id = Some (setProgress analyzing 75 job))
    by (rewrite Hjobs; apply lookup_insert_eq).
  split.
  - unfold analyzeVideo, getWorld. unfold mbind at 1, M_bind at 1.
    rewrite Hjob1. cbn [setProgress VideoData.transcription VideoData.status].
    rewrite Ht. destruct (decide (analyzing = analyzing)); [reflexivity | congruence].
  - exists job, t. split; [reflexivity|].
    destruct (VideoData.transcription job) as [[|c s]|]; try discriminate.
    cbn [nonEmpty] in Ht. inversion Ht; subst.
    split; [reflexivity|]. split; [discriminate|]. split; [reflexivity | exact Hjob1].
Qed.

Lemma analyzeVideo_once_witness :
  analyzeVideo "job-0" (snd (analyzeVideo "job-0" failedAnalysisWorld))
  = (Ok (mkResponse 400 (BodyError "Analysis already in progress"), None),
     snd (analyzeVideo "job-0" failedAnalysisWorld)).
Proof.
  destruct (analyzeVideo "job-0" failedAnalysisWorld) as [r w1] eqn:E.
  assert (Hr : r = Ok (mkResponse 200 (BodyAnalysisStarted "job-0"),
                       Some (TaskAnalyze "job-0" "transcript" "en")))
    by (vm_compute in E; inversion E; reflexivity).
  subst r. exact (proj1 (analyzeVideo_once _ _ _ _ _ E)).
Defined.



(** ** The upload loop for any number of attempts *)

Lemma retry_upload_shape {A} (out : nat -> Result A) fallback call maxRetries :
  forall todo attempt_no from lastError,
    let outs := nextOutcomes out from todo in
    let events := retryEvents (@Some A) call (uploadPause maxRetries) attempt_no outs in
    match retryOutcome Some fallback outs lastError with
    | Ok a =>
        exists k, (k < todo)%nat /\ out (from + k)%nat = Ok a /\
          (forall j, (j < k)%nat -> exists e, out (from + j)%nat = Throw e) /\
          events = List.flat_map (fun n => call :: uploadPause maxRetries n)
                                 (List.seq attempt_no k) ++ [call]
    | Throw e =>
        (forall j, (j < todo)%nat -> exists e', out (from + j)%nat = Throw e') /\
        events = List.flat_map (fun n => call :: uploadPause maxRetries n)
                               (List.seq attempt_no todo) /\
        match todo with
        | O => e = match lastError with Some e' => e' | None => fallback end
        | S t => out (from + t)%nat = Throw e
        end
    end.
Proof.
  induction todo as [|todo IH]; intros attempt_no from lastError.
  - cbv zeta. unfold nextOutcomes. cbn [List.seq List.map retryOutcome retryEvents List.flat_map].
    split; [intros j Hj; lia|]. split; reflexivity.
  - cbv zeta. unfold nextOutcomes. cbn [List.seq List.map].
    destruct (out from) as [a|e0] eqn:E0.
    + cbn [retryOutcome retryEvents]. exists 0%nat.
      split; [lia|]. split; [rewrite Nat.add_0_r; exact E0|].
      split; [intros j Hj; lia | reflexivity].
    + cbn [retryOutcome retryEvents].
      specialize (IH (S attempt_no) (S from) (Some e0)). cbv zeta in IH.
      unfold nextOutcomes in IH.
      destruct (retryOutcome Some fallback (List.map out (List.seq (S from) todo)) (Some e0))
        as [a|e].
      * destruct IH as (k & Hk & Hok & Hbefore & Hev).
        exists (S k). split; [lia|].
        split; [rewrite Nat.add_succ_r; exact Hok|]. split.
        -- intros [|j] Hj; [rewrite Nat.add_0_r; eauto|].
           rewrite Nat.add_succ_r. apply Hbefore. lia.
        -- rewrite Hev. cbn [List.seq List.flat_map].
           rewrite <- ?app_assoc. reflexivity.
      * destruct IH as (Hall & Hev & Hlast). split; [|split].
        -- intros [|j] Hj; [rewrite Nat.add_0_r; eauto|].
           rewrite Nat.add_succ_r. apply Hall. lia.
        -- rewrite Hev. cbn [List.seq List.flat_map].
           rewrite <- ?app_assoc. reflexivity.
        -- destruct todo as [|t].
           ++ rewrite Nat.add_0_r, Hlast. exact E0.
           ++ rewrite Nat.add_succ_r. exact Hlast.
Qed.

Lemma flat_map_failed_attempts call maxRetries k :
  (k < maxRetries)%nat ->
  List.flat_map (fun n => call :: uploadPause maxRetries n) (List.seq 1 k)
  = List.flat_map (fun n => [call; EvSleep (2 ^ Z.of_nat n * 1000)]) (List.seq 1 k).
Proof.
  intros Hk. assert (Hk' : (1 + k <= maxRetries)%nat) by lia. clear Hk.
  revert Hk'. generalize 1%nat as start. induction k as [|k IH]; intros start Hk.
  - reflexivity.
  - cbn [List.seq List.flat_map]. rewrite IH by lia. unfold uploadPause.
    destruct (Nat.ltb_spec start maxRetries); [reflexivity | lia].
Qed.

(** Called with any number [maxRetries] of attempts, the upload loop
    returns the file of the first upload that succeeds, after at most
    [maxRetries] uploads; after the failed attempt number n it pauses for
    2^n seconds, except after the last one it is allowed; when all
    attempts fail it throws the error of the last upload, and with no
    attempt allowed it throws "Upload failed after all retries" without
    any upload. *)
Theorem uploadWithRetry_backoff env cb (Hcb : forall p, quietM (callProgress cb p))
        path maxRetries w :
  let o k := uploadFile_out env (n_uploadFile w + k) in
  let U := EvUploadFile path in
  let failed n := [U; EvSleep (2 ^ Z.of_nat n * 1000)] in
  exists r w' new,
    uploadWithRetry env path maxRetries cb w = (r, w') /\
    externalCalls (trace w') = externalCalls (trace w) ++ new /\
    (forall file, r = Ok file ->
       exists k, (k < maxRetries)%nat /\ o k = Ok file /\
         (forall j, (j < k)%nat -> exists e, o j = Throw e) /\
         new = List.flat_map failed (List.seq 1 k) ++ [U]) /\
    (forall e, r = Throw e ->
       (forall j, (j < maxRetries)%nat -> exists e', o j = Throw e') /\
       match maxRetries with
       | O => e = "Upload failed after all retries" /\ new = []
       | S m => o m = Throw e /\ new = List.flat_map failed (List.seq 1 m) ++ [U]
       end).
Proof.
  intros o U failed.
  destruct (uploadLoop_refines env path maxRetries cb Hcb maxRetries 1 None w)
    as (w' & Hrun & Ht).
  pose proof (retry_upload_shape (uploadFile_out env) "Upload failed after all retries"
                U maxRetries maxRetries 1 (n_uploadFile w) None) as Hshape.
  cbv zeta in Hshape.
  eexists _, w', _. split; [exact Hrun|]. split; [exact Ht|].
  destruct (retryOutcome Some "Upload failed after all retries"
              (nextOutcomes (uploadFile_out env) (n_uploadFile w) maxRetries) None)
    as [a|e0].
  - split; [|intros e He; discriminate He].
    intros file Hf. inversion Hf; subst a.
    destruct Hshape as (k & Hk & Hok & Hbefore & Hev).
    exists k. split; [exact Hk|]. split; [exact Hok|]. split; [exact Hbefore|].
    fold U. rewrite Hev. rewrite (flat_map_failed_attempts U maxRetries k Hk). reflexivity.
  - split; [intros file Hf; discriminate Hf|].
    intros e He. inversion He; subst e0.
    destruct Hshape as (Hall & Hev & Hlast). split; [exact Hall|].
    fold U. destruct maxRetries as [|m].
    + split; [exact Hlast | exact Hev].
    + split; [exact Hlast|]. rewrite Hev.
      rewrite List.seq_S, List.flat_map_app. cbn [List.flat_map].
      rewrite (flat_map_failed_attempts U (S m) m) by lia.
      unfold uploadPause. rewrite Nat.ltb_irrefl. rewrite app_nil_r. reflexivity.
Qed.

Lemma uploadWithRetry_backoff_witness :
  exists w',
    uploadWithRetry failingUploadsEnv "audio.mp3" 5 None initialWorld
    = (Throw "upload error 4", w') /\
    externalCalls (trace w')
    = [EvUploadFile "audio.mp3"; EvSleep 2000; EvUploadFile "audio.mp3"; EvSleep 4000;
       EvUploadFile "audio.mp3"; EvSleep 8000; EvUploadFile "audio.mp3"; EvSleep 16000;
       EvUploadFile "audio.mp3"].
Proof.
  destruct (uploadWithRetry_backoff failingUploadsEnv None quietM_None "audio.mp3" 5
              initialWorld) as (r & w' & new & Hrun & Ht & _ & Hthrow).
  assert (Hr : r = Throw "upload error 4").
  { pose proof (f_equal fst Hrun) as H. vm_compute in H. symmetry. exact H. }
  subst r. exists w'. split; [exact Hrun|].
  destruct (Hthrow _ eq_refl) as (_ & _ & Hnew). rewrite Ht, Hnew. reflexivity.
Defined.

(** ** Waiting for an uploaded file *)

(** The wait loop never throws, also when a poll fails (the file obtained
    last is kept). It pauses 2 s before each poll and polls at most
    [maxWait] times ([maxWait] counts the polls still allowed: 60 in the
    File API path, 30 for a chunk); a file that is not PROCESSING is
    returned at once,
    without a pause; the file returned is still PROCESSING only when all
    [maxWait] polls were used; it is the file given or the answer of a
    poll. The loop makes no upload and no call to the model. *)
Theorem waitWhileProcessing_polls env report
        (Hcb : forall p, quietM (callProgress report p)) :
  forall maxWait waitCount file w,
    exists file' w' polls,
      waitWhileProcessing env maxWait waitCount file report w = (Ok file', w') /\
      (polls <= maxWait)%nat /\
      externalCalls (trace w') = externalCalls (trace w) ++ repeat (EvSleep 2000) polls /\
      n_uploadFile w' = n_uploadFile w /\
      n_generateContent w' = n_generateContent w /\
      (File.state file' = PROCESSING -> polls = maxWait) /\
      (File.state file <> PROCESSING -> polls = 0%nat /\ file' = file) /\
      (file' = file \/ exists n, getFile_out env n = Ok file').
Proof.
  induction maxWait as [|todo IH]; intros waitCount file w.
  - exists file, w, 0%nat. split; [reflexivity|]. split; [lia|].
    split; [cbn [repeat]; rewrite app_nil_r; reflexivity|].
    split; [reflexivity|]. split; [reflexivity|]. split; [reflexivity|].
    split; [intros _; split; reflexivity | left; reflexivity].
  - cbn [waitWhileProcessing]. destruct (decide (File.state file = PROCESSING)) as [Hp|Hp].
    + unfold sleep, emit. unfold mbind at 1, M_bind at 1.
      set (w1 := mkWorld _ _ _ _ _ _).
      unfold attempt, getFile. unfold mbind at 1, M_bind at 1.
      set (w2 := mkWorld _ _ _ _ _ _).
      destruct (getFile_out env (n_getFile w1)) as [f|e] eqn:E;
        (destruct (Hcb (55 + Z.min (Z.of_nat (S waitCount)) 10) w2)
           as ([] & w3 & Hp3 & Hg3 & Hu3 & Ht3);
         unfold mbind at 1, M_bind at 1; rewrite Hp3;
         match goal with |- context [waitWhileProcessing env todo _ ?f1 report w3] =>
           destruct (IH (S waitCount) f1 w3)
             as (file' & w' & polls & Hrun & Hle & Ht & Hu & Hg & Hstill & _ & Hfrom)
         end;
         exists file', w', (S polls); split; [exact Hrun|];
         split; [lia|];
         split; [rewrite Ht, Ht3; subst w2 w1; cbn [trace];
                 rewrite !externalCalls_app; cbn [externalCalls List.filter repeat];
                 rewrite app_nil_r, <- app_assoc; reflexivity|];
         split; [rewrite Hu, Hu3; reflexivity|];
         split; [rewrite Hg, Hg3; reflexivity|];
         split; [intros Hs; rewrite (Hstill Hs); reflexivity|];
         split; [intros Hn; contradiction|]).
      * right. destruct Hfrom as [->|Hfrom]; [eauto | exact Hfrom].
      * exact Hfrom.
    + exists file, w, 0%nat. split; [reflexivity|]. split; [lia|].
      split; [cbn [repeat]; rewrite app_nil_r; reflexivity|].
      split; [reflexivity|]. split; [reflexivity|]. split; [intros Hs; contradiction|].
      split; [intros _; split; reflexivity | left; reflexivity].
Qed.

Lemma waitWhileProcessing_polls_witness :
  exists w',
    waitWhileProcessing shortAudioEnv 60 0 (File.mk "files/a" "https://files/a" "audio/mpeg" PROCESSING) None initialWorld
    = (Ok activeFile, w') /\
    sleeps (trace w') = [2000].
Proof.
  destruct (waitWhileProcessing_polls shortAudioEnv None quietM_None 60 0
              (File.mk "files/a" "https://files/a" "audio/mpeg" PROCESSING) initialWorld)
    as (file' & w' & polls & Hrun & _).
  exists w'. pose proof (f_equal fst Hrun) as Hf. pose proof (f_equal snd Hrun) as Hw.
  vm_compute in Hf. cbn [snd] in Hw. inversion Hf; subst file'. split; [exact Hrun|].
  rewrite <- Hw. vm_compute. reflexivity.
Defined.

(** ** Platform names of accepted URLs *)

Lemma substring_0_prefix q : forall p s,
  String.substring 0 (String.length (p +:+ q)) s = p +:+ q ->
  String.substring 0 (String.length p) s = p.
Proof.
  induction p as [|a p IH]; intros s H.
  - destruct s; reflexivity.
  - destruct s as [|c s]; [discriminate H|].
    cbn [String.append String.length String.substring] in *.
    inversion H; subst. f_equal. apply IH. assumption.
Qed.

Lemma substring_prefix p q : forall s m,
  String.substring m (String.length (p +:+ q)) s = p +:+ q ->
  String.substring m (String.length p) s = p.
Proof.
  induction s as [|c s IH]; intros m H.
  - destruct m.
    + apply (substring_0_prefix q), H.
    + cbn [String.substring] in *. destruct p; [reflexivity | discriminate H].
  - destruct m.
    + apply (substring_0_prefix q), H.
    + cbn [String.substring] in *. apply IH, H.
Qed.

(** A string that includes [p +:+ q] includes [p]. *)
Lemma includes_prefix p q s :
  p <> EmptyString -> includes s (p +:+ q) = true -> includes s p = true.
Proof.
  unfold includes. intros Hp H.
  destruct (String.index 0 (p +:+ q) s) as [m|] eqn:E; [|discriminate H].
  apply String.index_correct1, substring_prefix in E.
  destruct (String.index 0 p s) eqn:E'; [reflexivity|].
  exfalso. exact (String.index_correct3 0 m p s E' Hp (Nat.le_0_l m) E).
Qed.

Lemma accepted_host_platform hostname :
  List.existsb (fun platform => includes hostname (replaceFirst "www." EmptyString platform))
               supportedPlatforms = true ->
  (includes hostname "youtube" || includes hostname "youtu.be")
  || (includes hostname "facebook" || includes hostname "fb.watch")
  || includes hostname "instagram"
  || (includes hostname "twitter" || includes hostname "x.com")
  || includes hostname "tiktok" = true.
Proof.
  intros H. unfold supportedPlatforms in H. cbn [List.existsb] in H.
  repeat match type of H with
         | context [replaceFirst ?a ?b ?c] =>
             let v := eval vm_compute in (replaceFirst a b c) in
             change (replaceFirst a b c) with v in H
         end.
  repeat rewrite orb_true_iff in H. repeat rewrite orb_true_iff.
  destruct H as [H|[H|[H|[H|[H|[H|[H|[H|H]]]]]]]]; [| | | | | | | |discriminate H].
  - left; left; left; left; left.
    exact (includes_prefix "youtube" ".com" hostname ltac:(discriminate) H).
  - left; left; left; left; right. exact H.
  - left; left; left; right; left.
    exact (includes_prefix "facebook" ".com" hostname ltac:(discriminate) H).
  - left; left; left; right; right. exact H.
  - left; left; right.
    exact (includes_prefix "instagram" ".com" hostname ltac:(discriminate) H).
  - left; right; left.
    exact (includes_prefix "twitter" ".com" hostname ltac:(discriminate) H).
  - left; right; right. exact H.
  - right. exact (includes_prefix "tiktok" ".com" hostname ltac:(discriminate) H).
Qed.

(** Every URL that [isValidPlatformUrl] accepts gets one of the five
    platform names from [extractPlatform], never "Unknown"; so the job
    created for an accepted submission carries one of the five names. *)
Theorem accepted_url_has_platform env url (Hvalid : isValidPlatformUrl env url = true) :
  In (extractPlatform env url) ["YouTube"; "Facebook"; "Instagram"; "Twitter/X"; "TikTok"] /\
  forall language w response task w',
    processVideo env (Some url) language w = (Ok (response, Some task), w') ->
    exists job,
      videoJobs w' !! taskId task = Some job /\
      VideoData.url job = url /\
      VideoData.platform job = extractPlatform env url /\
      VideoData.platform job <> "Unknown".
Proof.
  assert (Hin : In (extractPlatform env url)
                   ["YouTube"; "Facebook"; "Instagram"; "Twitter/X"; "TikTok"]).
  { unfold isValidPlatformUrl in Hvalid. unfold extractPlatform.
    destruct (URL_hostname env url) as [host|]; [|discriminate Hvalid].
    cbv zeta in *. apply accepted_host_platform in Hvalid.
    set (h := normalizeHost host) in *.
    destruct (includes h "youtube" || includes h "youtu.be"); [cbn; auto|].
    destruct (includes h "facebook" || includes h "fb.watch"); [cbn; auto|].
    destruct (includes h "instagram"); [cbn; auto|].
    destruct (includes h "twitter" || includes h "x.com"); [cbn; auto|].
    destruct (includes h "tiktok"); [cbn; auto 6|]. discriminate Hvalid. }
  split; [exact Hin|].
  intros language w response task w' Hsub. unfold processVideo in Hsub.
  destruct url as [|c url']; [discriminate Hvalid || (cbn in Hsub; discriminate Hsub)|].
  cbn [nonEmpty] in Hsub.
  destruct (nonEmpty language) as [l|]; [|discriminate Hsub].
  destruct (negb _); [discriminate Hsub|].
  destruct (findLanguage l); [|discriminate Hsub].
  inversion Hsub; subst. cbn [taskId videoJobs setJobs].
  eexists. split; [apply lookup_insert_eq|]. cbn [VideoData.url VideoData.platform].
  split; [reflexivity|]. split; [reflexivity|].
  intros Heq. rewrite Heq in Hin. cbn in Hin.
  repeat (destruct Hin as [Hin|Hin]; [discriminate Hin|]). exact Hin.
Qed.

Lemma accepted_url_has_platform_witness :
  extractPlatform shortAudioEnv "https://www.youtube.com/watch" <> "Unknown".
Proof.
  intros Heq.
  pose proof (proj1 (accepted_url_has_platform shortAudioEnv "https://www.youtube.com/watch"
                       eq_refl)) as Hin.
  rewrite Heq in Hin. cbn in Hin.
  repeat (destruct Hin as [Hin|Hin]; [discriminate Hin|]). exact Hin.
Defined.

(** ** Failed downloads *)

Lemma writeJob_run videoId f w job :
  videoJobs w !! videoId = Some job ->
  writeJob videoId f w
  = (Ok tt, mkWorld (<[videoId := f job]> (videoJobs w)) (n_generateContent w)
                    (n_uploadFile w) (n_getFile w) (n_uuid w)
                    (trace w ++ [EvJobWrite videoId (VideoData.status (f job))
                                            (VideoData.progress (f job))])).
Proof.
  intros Hjob. unfold writeJob, getWorld, mbind, M_bind. rewrite Hjob. reflexivity.
Qed.

Ltac run_writes Hjob :=
  repeat first
    [ erewrite writeJob_run by (cbn [videoJobs]; first [exact Hjob | apply lookup_insert_eq])
    | progress cbv beta iota ].

(** A download that fails ends the task before any transcription: the
    job goes to [error] with the message "Failed to download video: "
    followed by the cause, its progress stays where the download stopped
    (15 when the description of the video cannot be fetched, 25 when the
    audio cannot be fetched, 40 when no audio file is found afterwards),
    and no upload, no call to the model and no pause is made. *)
Theorem download_failure env videoId url language w job
  (Hjob : videoJobs w !! videoId = Some job) :
  let failedAt (p : Z) (cause : string) :=
    exists w',
      processVideoAsync env videoId url language w = (Ok tt, w') /\
      videoJobs w' !! videoId
      = Some (setError ("Failed to download video: " +:+ cause)
                       (setProgress downloading p job)) /\
      externalCalls (trace w') = externalCalls (trace w) /\
      n_uploadFile w' = n_uploadFile w /\
      n_generateContent w' = n_generateContent w in
  (forall e, ytdlp_info env = Throw e -> failedAt 15 e) /\
  (forall info e,
     ytdlp_info env = Ok info -> ytdlp_mp3 env = false ->
     ytdlp_fallback env = Throw e -> failedAt 25 e) /\
  (forall info,
     ytdlp_info env = Ok info -> ytdlp_mp3 env = false ->
     ytdlp_fallback env = Ok None -> failedAt 40 "Audio file not found after download").
Proof.
  cbv zeta. split; [|split].
  - intros e Hinfo.
    unfold processVideoAsync, attempt, downloadVideo, try_catch, callProgress, liftR, throw.
    unfold mbind, M_bind. rewrite Hinfo. run_writes Hjob.
    eexists. split; [reflexivity|]. cbn [videoJobs trace n_uploadFile n_generateContent].
    split; [rewrite lookup_insert_eq; reflexivity|].
    split; [|split; reflexivity].
    rewrite !externalCalls_app. cbn [externalCalls List.filter]. rewrite !app_nil_r.
    reflexivity.
  - intros info e Hinfo Hmp3 Hfb.
    unfold processVideoAsync, attempt, downloadVideo, try_catch, callProgress, liftR, throw.
    unfold mbind, M_bind. rewrite Hinfo, Hmp3, Hfb. run_writes Hjob.
    eexists. split; [reflexivity|]. cbn [videoJobs trace n_uploadFile n_generateContent].
    split; [rewrite lookup_insert_eq; reflexivity|].
    split; [|split; reflexivity].
    rewrite !externalCalls_app. cbn [externalCalls List.filter]. rewrite !app_nil_r.
    reflexivity.
  - intros info Hinfo Hmp3 Hfb.
    unfold processVideoAsync, attempt, downloadVideo, try_catch, callProgress, liftR, throw.
    unfold mbind, M_bind, mret, M_ret. rewrite Hinfo, Hmp3, Hfb.
    cbn [option_map]. run_writes Hjob.
    eexists. split; [reflexivity|]. cbn [videoJobs trace n_uploadFile n_generateContent].
    split; [rewrite lookup_insert_eq; reflexivity|].
    split; [|split; reflexivity].
    rewrite !externalCalls_app. cbn [externalCalls List.filter]. rewrite !app_nil_r.
    reflexivity.
Qed.

Lemma download_failure_witness :
  exists w',
    processVideoAsync unavailableVideoEnv "job-0" "https://www.youtube.com/watch" "en"
                      transcribedWorld = (Ok tt, w') /\
    videoJobs w' !! "job-0"
    = Some (setError "Failed to download video: Video unavailable"
                     (setProgress downloading 15 (transcribedJob analyzing 75))).
Proof.
  destruct (proj1 (download_failure unavailableVideoEnv "job-0"
                     "https://www.youtube.com/watch" "en" transcribedWorld
                     (transcribedJob analyzing 75) eq_refl) "Video unavailable" eq_refl)
    as (w' & Hrun & Hjob' & _).
  exists w'. split; [exact Hrun | exact Hjob'].
Defined.

(** ** Timestamps of the chunk headers *)

Lemma Qfloor_unique z x : (inject_Z z <= x)%Q -> (x < inject_Z (z + 1))%Q -> Qfloor x = z.
Proof.
  intros Hle Hlt.
  assert (H1 : z <= Qfloor x).
  { rewrite <- (Qfloor_Z z). apply Qfloor_resp_le, Hle. }
  assert (H2 : Qfloor x < z + 1).
  { rewrite Zlt_Qlt. eapply Qle_lt_trans; [apply Qfloor_le | exact Hlt]. }
  lia.
Qed.

(** [formatTimestamp] writes a time that is not negative as its whole
    minutes and the whole seconds left over, each on two digits at least:
    the minutes are not reduced modulo 60 (an hour is "60:00") and a
    fraction of a second is dropped. *)
Theorem formatTimestamp_minutes_seconds seconds (m s : Z) (q : Q)
  (Hm : 0 <= m) (Hs : 0 <= s < 60) (Hq : (0 <= q)%Q /\ (q < 1)%Q)
  (Hseconds : (seconds == inject_Z (60 * m + s) + q)%Q) :
  formatTimestamp seconds = padStart2 (pretty m) +:+ ":" +:+ padStart2 (pretty s).
Proof.
  destruct Hq as [Hq0 Hq1]. unfold formatTimestamp.
  assert (Hs0 : (0 <= inject_Z s)%Q) by (rewrite <- (Zle_Qle 0); lia).
  assert (Hs1 : (inject_Z s <= 59)%Q)
    by (change 59%Q with (inject_Z 59); rewrite <- Zle_Qle; lia).
  assert (Hsec : (seconds == 60 * inject_Z m + inject_Z s + q)%Q).
  { rewrite Hseconds, inject_Z_plus, inject_Z_mult. reflexivity. }
  assert (Hmins : Qfloor (seconds / 60) = m).
  { apply Qfloor_unique.
    - apply Qle_shift_div_l; [reflexivity|]. rewrite Hsec. lra.
    - apply Qlt_shift_div_r; [reflexivity|]. rewrite Hsec, inject_Z_plus.
      change (inject_Z 1) with 1%Q. lra. }
  cbv zeta. rewrite Hmins.
  assert (Hsecs : Qfloor (seconds - inject_Z (60 * m)) = s).
  { apply Qfloor_unique.
    - rewrite Hsec, inject_Z_mult. change (inject_Z 60) with 60%Q. lra.
    - rewrite Hsec, inject_Z_mult, inject_Z_plus.
      change (inject_Z 60) with 60%Q. change (inject_Z 1) with 1%Q. lra. }
  rewrite Hsecs. reflexivity.
Qed.

Lemma formatTimestamp_minutes_seconds_witness :
  formatTimestamp (3905 + (1 # 2)) = "65:05".
Proof.
  refine (formatTimestamp_minutes_seconds (3905 + (1 # 2)) 65 5 (1 # 2) _ _ _ _).
  - lia.
  - lia.
  - split; [unfold Qle | unfold Qlt]; simpl; lia.
  - reflexivity.
Defined.

(** ** Progress during the analysis *)

Lemma jobHistory_app id e1 e2 :
  jobHistory id (e1 ++ e2) = jobHistory id e1 ++ jobHistory id e2.
Proof. apply List.flat_map_app. Qed.

Lemma jobHistory_write id status p :
  jobHistory id [EvJobWrite id status p] = [(status, p)].
Proof. unfold jobHistory. cbn [List.flat_map]. rewrite String.eqb_refl. reflexivity. Qed.

Lemma buildClaim_frame env factCheckData claim index w r w' :
  buildClaim env factCheckData claim index w = (r, w') ->
  videoJobs w' = videoJobs w /\ trace w' = trace w /\
  n_generateContent w' = n_generateContent w.
Proof.
  unfold buildClaim, liftR, generateId, mbind, M_bind, mret, M_ret. intros H.
  repeat match type of H with
         | (match ?x with _ => _ end) = _ => destruct x eqn:?
         end;
  inversion H; subst; simpl; auto.
Qed.

Lemma mapM_buildClaim_frame env factCheckData items : forall i0 w r w',
  mapM_index (buildClaim env factCheckData) items i0 w = (r, w') ->
  videoJobs w' = videoJobs w /\ trace w' = trace w /\
  n_generateContent w' = n_generateContent w.
Proof.
  induction items as [|x items IH]; cbn [mapM_index]; intros i0 w r w' H.
  - inversion H; subst. auto.
  - unfold mbind at 1, M_bind at 1 in H.
    destruct (buildClaim env factCheckData x i0 w) as [[c|e] w1] eqn:Hc;
      apply buildClaim_frame in Hc as (Hj & Ht & Hn).
    + unfold mbind at 1, M_bind at 1 in H.
      destruct (mapM_index _ items (S i0) w1) as [[cs|e] w2] eqn:Hcs;
        apply IH in Hcs as (Hj2 & Ht2 & Hn2); inversion H; subst;
        rewrite Hj2, Ht2, Hn2; auto.
    + inversion H; subst. auto.
Qed.

Lemma js_map_buildClaim_frame env factCheckData v w r w' :
  js_map v (buildClaim env factCheckData) w = (r, w') ->
  videoJobs w' = videoJobs w /\ trace w' = trace w /\
  n_generateContent w' = n_generateContent w.
Proof.
  unfold js_map. destruct v; try (intros H; inversion H; subst; auto; fail).
  apply mapM_buildClaim_frame.
Qed.

Ltac report_leaf ps :=
  eexists _, _, ps; split; [reflexivity|]; cbn [trace videoJobs];
  split;
  [ rewrite ?jobHistory_app, ?jobHistory_write; cbn [jobHistory List.flat_map List.map app];
    rewrite ?app_nil_r, <- ?app_assoc; reflexivity
  | split; [rewrite ?lookup_insert_eq; reflexivity | auto] ].

(** The progress reports of an analysis, as the callback of the
    background task stores them in the job. *)
Lemma factCheck_reports env videoId t l w job
  (Hjob : videoJobs w !! videoId = Some job) :
  let cb := Some (fun progress =>
                    writeJob videoId
                      (fun job => setProgress (VideoData.status job) progress job)) in
  exists r w' ps,
    factCheckTranscription env t l cb w = (r, w') /\
    jobHistory videoId (trace w')
    = jobHistory videoId (trace w) ++ List.map (fun p => (VideoData.status job, p)) ps /\
    videoJobs w' !! videoId
    = Some (match ps with
            | [] => job
            | _ :: _ => setProgress (VideoData.status job) (List.last ps 0) job
            end) /\
    match r with
    | Ok _ => ps = [75] \/ ps = [75; 80; 90; 100]
    | Throw _ => ps = [] \/ ps = [75] \/ ps = [75; 80] \/ ps = [75; 80; 90]
    end.
Proof.
  cbv zeta. unfold factCheckTranscription.
  destruct (String.eqb _ _).
  { exists (Throw "Gemini API key not configured"), w, [].
    split; [reflexivity|]. split; [rewrite app_nil_r; reflexivity|].
    split; [exact Hjob | auto]. }
  unfold callProgress, try_catch, liftR, throw, generateContent.
  unfold mbind, M_bind, mret, M_ret.
  erewrite writeJob_run by exact Hjob. cbv beta iota.
  cbn [n_generateContent videoJobs trace n_uploadFile n_getFile n_uuid].
  destruct (generateContent_out env (n_generateContent w)) as [text|e];
    [|report_leaf [75]].
  destruct (get (Some (extractedClaimsOf env text)) "length") as [len|e];
    [|report_leaf [75]].
  destruct (strict_eq_num len 0); [report_leaf [75]|].
  cbv beta. erewrite writeJob_run by (cbn [videoJobs]; apply lookup_insert_eq).
  cbv beta iota. cbn [n_generateContent videoJobs trace n_uploadFile n_getFile n_uuid].
  destruct (generateContent_out env (S (n_generateContent w))) as [ft|e];
    [|report_leaf [75; 80]].
  destruct (factCheckDataOf env (extractedClaimsOf env text) ft) as [data|e];
    [|report_leaf [75; 80]].
  erewrite writeJob_run by (cbn [videoJobs]; apply lookup_insert_eq).
  cbv beta iota.
  match goal with |- context [js_map ?v ?f ?w4] =>
    destruct (js_map v f w4) as [[claims|e] w5] eqn:Hmap;
      apply js_map_buildClaim_frame in Hmap as (Hj & Ht & _);
      cbn [videoJobs trace] in Hj, Ht
  end.
  - erewrite writeJob_run by (rewrite Hj; apply lookup_insert_eq).
    cbv beta iota. rewrite Hj, Ht. report_leaf [75; 80; 90; 100].
  - eexists _, w5, [75; 80; 90]. split; [reflexivity|]. rewrite Hj, Ht.
    split;
      [ rewrite ?jobHistory_app, ?jobHistory_write;
        cbn [jobHistory List.flat_map List.map app];
        rewrite ?app_nil_r, <- ?app_assoc; reflexivity
      | split; [rewrite ?lookup_insert_eq; reflexivity | auto] ].
Qed.

(** Run on a stored job without another request in between, the analysis
    task never lowers the progress it was started with: it stores 75, 80,
    90 and 100 in this order under the status the job had, stops at the
    first failure with [error] at the progress reached, and ends with
    [completed] at 100 otherwise (after 75 at once when no claim was
    extracted). Without an API key it stores [error] only, at the progress
    the job had. *)
Theorem analysis_progress env videoId transcription language w job
  (Hjob : videoJobs w !! videoId = Some job) :
  let s := VideoData.status job in
  exists w' history job',
    analyzeVideoAsync env videoId transcription language w = (Ok tt, w') /\
    jobHistory videoId (trace w') = jobHistory videoId (trace w) ++ history /\
    In history [ [(error, VideoData.progress job)];
                 [(s, 75); (error, 75)];
                 [(s, 75); (completed, 100)];
                 [(s, 75); (s, 80); (error, 80)];
                 [(s, 75); (s, 80); (s, 90); (error, 90)];
                 [(s, 75); (s, 80); (s, 90); (s, 100); (completed, 100)] ] /\
    (VideoData.progress job <= 75 ->
     nonDecreasing (VideoData.progress job :: List.map snd history) = true) /\
    videoJobs w' !! videoId = Some job' /\
    List.last history (s, 0) = (VideoData.status job', VideoData.progress job').
Proof.
  cbv zeta. unfold analyzeVideoAsync, getWorld. unfold mbind at 1, M_bind at 1.
  rewrite Hjob.
  destruct (factCheck_reports env videoId transcription language w job Hjob)
    as (r & w1 & ps & Hrun & Hh & Hj1 & Hcase).
  cbv zeta in Hrun. unfold attempt. unfold mbind at 1, M_bind at 1.
  unfold mbind at 1, M_bind at 1. rewrite Hrun.
  assert (Hmono : forall rest : list Z,
            nonDecreasing (75 :: rest) = true ->
            VideoData.progress job <= 75 ->
            nonDecreasing (VideoData.progress job :: 75 :: rest) = true).
  { intros rest Hrest Hle. cbn [nonDecreasing] in *. rewrite Hrest.
    apply Z.leb_le in Hle. rewrite Hle. reflexivity. }
  destruct r as [res|e];
    [destruct Hcase as [-> | ->] | destruct Hcase as [-> | [-> | [-> | ->]]]];
    (erewrite writeJob_run by exact Hj1; cbv beta iota;
     eexists _, _, _; split; [reflexivity|]; cbn [trace videoJobs];
     rewrite jobHistory_app, jobHistory_write, Hh, <- app_assoc;
     split; [reflexivity|]; cbn [List.map app List.last];
     split; [cbn; auto 10|];
     split;
       [ first [ intros Hle; apply Hmono; [reflexivity | exact Hle]
               | intros _; cbn [nonDecreasing List.map snd];
                 rewrite Z.leb_refl; reflexivity ]
       | split; [apply lookup_insert_eq | reflexivity] ]).
Qed.

Lemma analysis_progress_witness :
  exists w',
    analyzeVideoAsync fourClaimsEnv "job-0" "transcript" "en" transcribedWorld = (Ok tt, w') /\
    jobHistory "job-0" (trace w')
    = [(analyzing, 75); (analyzing, 80); (analyzing, 90); (analyzing, 100); (completed, 100)].
Proof.
  destruct (analysis_progress fourClaimsEnv "job-0" "transcript" "en" transcribedWorld
              (transcribedJob analyzing 75) eq_refl)
    as (w' & history & job' & Hrun & Hh & _).
  exists w'. split; [exact Hrun|].
  vm_compute in Hrun. inversion Hrun; subst w'. vm_compute. reflexivity.
Defined.

(** ** Cost of the chunked path *)










(** ** Fresh identifiers *)

Lemma idsIssued_frame env w w' :
  videoJobs w' = videoJobs w -> (n_uuid w <= n_uuid w')%nat ->
  idsIssued env w -> idsIssued env w'.
Proof.
  intros Hj Hn HP key Hkey. rewrite Hj in Hkey.
  destruct (HP key Hkey) as (k & Hk & ->). exists k. split; [lia | reflexivity].
Qed.

Lemma keeps_idsIssued_writeJob env videoId f : keeps (idsIssued env) (writeJob videoId f).
Proof.
  intros w r w' HP H. unfold writeJob, getWorld, mbind, M_bind in H.
  destruct (videoJobs w !! videoId) as [job|] eqn:Hjob; inversion H; subst; [|exact HP].
  intros key Hkey. cbn [videoJobs n_uuid] in *.
  destruct (decide (key = videoId)) as [->|Hne].
  - apply HP. rewrite Hjob. eauto.
  - rewrite lookup_insert_ne in Hkey by congruence. apply HP, Hkey.
Qed.

Lemma keeps_idsIssued_modifyJob env videoId f : keeps (idsIssued env) (modifyJob videoId f).
Proof.
  intros w r w' HP H. unfold modifyJob, getWorld, mbind, M_bind in H.
  destruct (videoJobs w !! videoId) as [job|] eqn:Hjob; inversion H; subst; [|exact HP].
  intros key Hkey. cbn [videoJobs n_uuid] in *.
  destruct (decide (key = videoId)) as [->|Hne].
  - apply HP. rewrite Hjob. eauto.
  - rewrite lookup_insert_ne in Hkey by congruence. apply HP, Hkey.
Qed.

Lemma reachable_idsIssued env w : reachable env w -> idsIssued env w.
Proof.
  induction 1 as [|w w' _ IH Hstep].
  - intros key [job Hkey]. cbn in Hkey. rewrite lookup_empty in Hkey. discriminate.
  - destruct Hstep as [url language w r w' H | id w r w' H | id w r w' H
                      | id w r w' H | id w r w' H | task w r w' H].
    + unfold processVideo in H.
      destruct (nonEmpty url); [|inversion H; subst; exact IH].
      destruct (nonEmpty language); [|inversion H; subst; exact IH].
      destruct (negb _); [inversion H; subst; exact IH|].
      destruct (findLanguage _); [|inversion H; subst; exact IH].
      inversion H; subst. intros key Hkey. cbn [videoJobs n_uuid setJobs] in *.
      destruct (decide (key = uuidv4 env (n_uuid w))) as [->|Hne].
      * exists (n_uuid w). split; [lia | reflexivity].
      * rewrite lookup_insert_ne in Hkey by congruence.
        destruct (IH key Hkey) as (k & Hk & ->). exists k. split; [lia | reflexivity].
    + unfold getVideoStatus, getWorld, mbind, M_bind in H.
      destruct (videoJobs w !! id); inversion H; subst; exact IH.
    + unfold analyzeVideo, getWorld in H. unfold mbind at 1, M_bind at 1 in H.
      destruct (videoJobs w !! id) as [job|] eqn:Hjob; [|inversion H; subst; exact IH].
      destruct (nonEmpty _); [|inversion H; subst; exact IH].
      destruct (decide _); [inversion H; subst; exact IH|].
      unfold mbind, M_bind in H.
      destruct (writeJob id (setProgress analyzing 75) w) as [[u|e] w1] eqn:Hw;
        inversion H; subst; exact (keeps_idsIssued_writeJob env id _ _ _ _ IH Hw).
    + unfold getVideoResults, getWorld, mbind, M_bind in H.
      destruct (videoJobs w !! id) as [job|]; [|inversion H; subst; exact IH].
      destruct (VideoData.claims job), (VideoData.overallScore job);
        inversion H; subst; exact IH.
    + unfold deleteVideo, getWorld, mbind, M_bind in H.
      destruct (videoJobs w !! id) as [job|]; inversion H; subst; [|exact IH].
      intros key [j Hkey]. cbn [videoJobs n_uuid setJobs] in *.
      apply lookup_delete_Some in Hkey as [_ Hkey]. apply IH. eauto.
    + destruct task as [videoId url language | videoId transcription language];
        cbn [runTask] in H.
      * refine (keeps_processVideoAsync env (idsIssued env) videoId (fun _ => True)
                  (idsIssued_frame env) _ _ _ _ _ _ url language w r w' IH H); auto;
          intros; first [apply keeps_idsIssued_writeJob | apply keeps_idsIssued_modifyJob].
      * refine (keeps_analyzeVideoAsync env (idsIssued env) videoId (fun _ => True)
                  (idsIssued_frame env) _ _ _ _ transcription language w r w' IH H); auto;
          intros; apply keeps_idsIssued_writeJob.
Qed.

(** In every world reachable from the empty table, every key of the job
    table is an identifier the generator has given out before. So, with a
    generator that never repeats an identifier, an accepted submission
    gets an id that is not in the table: it replaces no job and changes no
    stored job. *)
Theorem submission_keeps_jobs env w
  (Hreach : reachable env w)
  (Hunique : forall a b, uuidv4 env a = uuidv4 env b -> a = b) :
  forall url language response task w',
    processVideo env url language w = (Ok (response, Some task), w') ->
    videoJobs w !! taskId task = None /\
    is_Some (videoJobs w' !! taskId task) /\
    forall id job, videoJobs w !! id = Some job -> videoJobs w' !! id = Some job.
Proof.
  intros url language response task w' H.
  pose proof (reachable_idsIssued env w Hreach) as Hids.
  unfold processVideo in H.
  destruct (nonEmpty url); [|discriminate H].
  destruct (nonEmpty language); [|discriminate H].
  destruct (negb _); [discriminate H|].
  destruct (findLanguage _); [|discriminate H].
  inversion H; subst. cbn [taskId videoJobs setJobs].
  assert (Hfresh : videoJobs w !! uuidv4 env (n_uuid w) = None).
  { destruct (videoJobs w !! uuidv4 env (n_uuid w)) as [job|] eqn:Hjob; [|reflexivity].
    destruct (Hids _ (ex_intro _ job Hjob)) as (k & Hk & Heq).
    apply Hunique in Heq. lia. }
  split; [exact Hfresh|]. split; [rewrite lookup_insert_eq; eauto|].
  intros id job Hjob. rewrite lookup_insert_ne; [exact Hjob|].
  intros Heq. rewrite <- Heq, Hfresh in Hjob. discriminate.
Qed.

Lemma submission_keeps_jobs_witness :
  exists response task w',
    processVideo shortAudioEnv (Some "https://www.youtube.com/watch") (Some "en")
                 (runJob shortAudioEnv "https://www.youtube.com/watch" "en")
    = (Ok (response, Some task), w') /\
    taskId task = "job-1" /\
    videoJobs (runJob shortAudioEnv "https://www.youtube.com/watch" "en") !! "job-1" = None.
Proof.
  destruct (processVideo shortAudioEnv (Some "https://www.youtube.com/watch") (Some "en")
              (runJob shortAudioEnv "https://www.youtube.com/watch" "en"))
    as [r w'] eqn:E.
  assert (Hr : r = Ok (mkResponse 200 (BodyStarted "job-1"),
                       Some (TaskProcess "job-1" "https://www.youtube.com/watch" "en")))
    by (vm_compute in E; inversion E; reflexivity).
  subst r. eexists _, _, w'. split; [reflexivity|]. split; [reflexivity|].
  refine (proj1 (submission_keeps_jobs shortAudioEnv _ _ _ _ _ _ _ _ E)).
  - unfold runJob.
    destruct (processVideo shortAudioEnv (Some "https://www.youtube.com/watch") (Some "en")
                initialWorld) as [r w1] eqn:E1.
    assert (R1 : reachable shortAudioEnv w1)
      by (eapply reachable_step; [apply reachable_initial | eapply step_processVideo, E1]).
    destruct r as [[resp [task|]]|e]; try exact R1.
    destruct (runTask shortAudioEnv task w1) as [r2 w2] eqn:E2. simpl.
    eapply reachable_step; [exact R1 | eapply step_runTask, E2].
  - intros a b Heq. unfold shortAudioEnv, scenario in Heq. cbn [uuidv4] in Heq.
    apply (inj (String.app "job-")) in Heq. exact (inj pretty _ _ Heq).
Defined.

(** ** The score as a function of the verdicts *)

Lemma Math_round_quotient_le ws n ws' n' :
  0 < n -> 0 < n' -> ws * n' <= ws' * n ->
  Math_round (inject_Z ws / inject_Z n) <= Math_round (inject_Z ws' / inject_Z n').
Proof.
  intros Hn Hn' Hle. unfold Math_round. apply Qfloor_resp_le.
  apply Qplus_le_l.
  assert (HnQ : (0 < inject_Z n)%Q) by (rewrite <- (Zlt_Qlt 0); exact Hn).
  assert (HnQ' : (0 < inject_Z n')%Q) by (rewrite <- (Zlt_Qlt 0); exact Hn').
  apply Qle_shift_div_l; [exact HnQ'|].
  assert (Heq : (inject_Z ws / inject_Z n * inject_Z n'
                 == inject_Z ws * inject_Z n' / inject_Z n)%Q)
    by (unfold Qdiv; ring).
  rewrite Heq. apply Qle_shift_div_r; [exact HnQ|].
  rewrite <- !inject_Z_mult, <- Zle_Qle. exact Hle.
Qed.

Lemma weightedSum_bounds claims :
  0 <= weightedSum (summarize claims) <= 100 * Z.of_nat (List.length claims).
Proof.
  destruct (counts_within_total claims) as (Htot & HT & HF & HP & HU & Hle).
  unfold weightedSum, countedClaims in *. cbn [summarize Summary.totalClaims] in Hle. lia.
Qed.

Lemma weightedSum_cons c claims :
  weightedSum (summarize (c :: claims))
  = weightedSum (summarize claims)
    + (if strict_eq_str (Claim.status c) "true" then 100 else 0)
    + (if strict_eq_str (Claim.status c) "partially_true" then 50 else 0)
    + (if strict_eq_str (Claim.status c) "unverifiable" then 50 else 0).
Proof.
  unfold weightedSum, summarize.
  cbn [Summary.trueClaims Summary.falseClaims Summary.partiallyTrueClaims
       Summary.unverifiableClaims].
  rewrite !count_status_cons.
  destruct (strict_eq_str (Claim.status c) "true"),
           (strict_eq_str (Claim.status c) "partially_true"),
           (strict_eq_str (Claim.status c) "unverifiable"),
           (strict_eq_str (Claim.status c) "false"); lia.
Qed.

Lemma score_nonempty claims :
  (0 < List.length claims)%nat ->
  computeOverallScore (summarize claims)
  = Math_round (inject_Z (weightedSum (summarize claims))
                / inject_Z (Z.of_nat (List.length claims))).
Proof.
  intros Hlen. unfold computeOverallScore. cbn [summarize Summary.totalClaims].
  destruct (Z.eqb_spec (Z.of_nat (List.length claims)) 0); [lia | reflexivity].
Qed.

(** One more claim moves the overall score in the direction of its
    verdict: a claim found true never lowers the score of a report, and a
    claim found false, or one whose status is none of the four known ones,
    never raises it. *)
Theorem score_monotone c claims :
  let before := computeOverallScore (summarize claims) in
  let after := computeOverallScore (summarize (c :: claims)) in
  (Claim.status c = Some (JStr "true") -> before <= after) /\
  (Claim.status c = Some (JStr "false") -> after <= before) /\
  (knownStatus (Claim.status c) = false -> after <= before).
Proof.
  cbv zeta. pose proof (weightedSum_bounds claims) as Hws.
  pose proof (weightedSum_cons c claims) as Hcons.
  assert (Hafter := score_nonempty (c :: claims) ltac:(cbn [List.length]; lia)).
  assert (Hlen : Z.of_nat (List.length (c :: claims)) = Z.of_nat (List.length claims) + 1)
    by (cbn [List.length]; lia).
  assert (Hdown : weightedSum (summarize (c :: claims)) = weightedSum (summarize claims) ->
                  computeOverallScore (summarize (c :: claims))
                  <= computeOverallScore (summarize claims)).
  { intros Hsame. destruct (Nat.eq_dec (List.length claims) 0%nat) as [Hnil|Hpos].
    - apply List.length_zero_iff_nil in Hnil. subst claims.
      change (computeOverallScore (summarize [])) with 100.
      apply computeOverallScore_bounds.
    - rewrite Hafter, Hsame, Hlen, (score_nonempty claims) by lia.
      apply Math_round_quotient_le; nia. }
  split; [|split].
  - intros Hst. rewrite Hst in Hcons.
    change (strict_eq_str (Some (JStr "true")) "true") with true in Hcons.
    change (strict_eq_str (Some (JStr "true")) "partially_true") with false in Hcons.
    change (strict_eq_str (Some (JStr "true")) "unverifiable") with false in Hcons.
    cbv iota in Hcons.
    destruct (Nat.eq_dec (List.length claims) 0%nat) as [Hnil|Hpos].
    + apply List.length_zero_iff_nil in Hnil. subst claims.
      rewrite Hafter, Hcons. vm_compute. discriminate.
    + rewrite Hafter, Hcons, Hlen, (score_nonempty claims) by lia.
      apply Math_round_quotient_le; nia.
  - intros Hst. apply Hdown. rewrite Hcons, Hst.
    change (strict_eq_str (Some (JStr "false")) "true") with false.
    change (strict_eq_str (Some (JStr "false")) "partially_true") with false.
    change (strict_eq_str (Some (JStr "false")) "unverifiable") with false.
    cbv iota. lia.
  - intros Hst. apply Hdown. rewrite Hcons. unfold knownStatus in Hst.
    repeat (apply orb_false_iff in Hst as [Hst ?]).
    repeat match goal with H : strict_eq_str _ _ = false |- _ => rewrite H; clear H end.
    rewrite ?Hst. cbv iota. lia.
Qed.

Lemma score_monotone_witness :
  let claim status :=
    Claim.mk "id" None None (Some (JStr status)) None None None None None in
  computeOverallScore (summarize [claim "false"; claim "true"; claim "partially_true"])
  <= computeOverallScore (summarize [claim "true"; claim "partially_true"]).
Proof.
  intros claim.
  exact (proj1 (proj2 (score_monotone (claim "false") [claim "true"; claim "partially_true"]))
               eq_refl).
Defined.
